(** * git-backup: the repository set reconciliation and sync engine

    A shallow embedding of [git_backup.py] and the proofs of its
    specification.  The script lists the repositories of a GitHub user,
    removes from the backup directory whatever is not one of them, and
    mirrors each of them (fetch when the mirror exists, clone into a
    hidden temporary path and rename otherwise).

    Modelling conventions.
    - A name is a [string]; its characters are the bytes of the name.
    - The backup directory is a finite map from entry names to nodes.
      [os.path.join(backup_dir, name)] is the entry [name] of that map when
      [name] is one path component ([is_entry_name]); what happens on any
      other path is not decided by the entries and is left to the world.
    - Everything the script asks from the outside (HTTP server, [git],
      the file system's verdict on a removal or a rename, the pid-file
      library [psys.daemon]) is read from a [world] record: one run, one
      world.  The world decides whether a call fails; what a call that
      succeeds does to the entries is fixed here.
    - Every function runs in a small state-and-exception monad: the state
      is the directory, the output is the list of the calls the script
      made (the trace), and exceptions are Python's.
    - Not modelled: signals and the reaping of subprocesses, the parsing of
      the command line other than the check of the user name, the
      configuration of the logging (the trace keeps every logging call,
      with its level, whatever is printed).
    - Of [setup.py], the one function with logic of its own,
      [get_requirements], is embedded on the lines of the file it reads. *)

From Stdlib Require Import Strings.String Strings.Ascii.
From stdpp Require Import sorting gmap strings list fin_maps pretty.

Open Scope string_scope.
Open Scope list_scope.
Open Scope nat_scope.

(** ** Regular expressions of the script

    The two patterns of the script are an anchor [^] followed by
    bracket classes, the last one under [*] or [+].  [re.search] is
    called without flags, so [^] matches at index 0 only. *)

Module Re.

Inductive item := Range (lo hi : ascii) | Lit (c : ascii).

Definition item_mem (c : ascii) (i : item) : bool :=
  match i with
  | Range lo hi => Ascii.leb lo c && Ascii.leb c hi
  | Lit d => Ascii.eqb c d
  end.

(** A bracket class [[...]]. *)
Definition class := list item.

Definition class_mem (cs : class) (c : ascii) : bool := existsb (item_mem c) cs.

Inductive quant := One | Star | Plus.

Definition atom : Type := class * quant.

(** Greedy repetition of a class, then the continuation [k]; backtracks to
    a shorter repetition when [k] fails.  The result is the length of the
    match. *)
Fixpoint star (cs : class) (k : string → option nat) (s : string) : option nat :=
  match s with
  | String c s' =>
      if class_mem cs c then
        match star cs k s' with
        | Some n => Some (S n)
        | None => k s
        end
      else k s
  | EmptyString => k s
  end.

Fixpoint match_here (atoms : list atom) : string → option nat :=
  match atoms with
  | [] => λ _, Some 0
  | (cs, q) :: rest =>
      let k := match_here rest in
      match q with
      | One => λ s,
          match s with
          | String c s' => if class_mem cs c then S <$> k s' else None
          | EmptyString => None
          end
      | Star => star cs k
      | Plus => λ s,
          match s with
          | String c s' => if class_mem cs c then S <$> star cs k s' else None
          | EmptyString => None
          end
      end
  end.

(** [re.compile("^" + atoms).search(s)]: the end of the match, or [None]. *)
Definition search (atoms : list atom) (s : string) : option nat := match_here atoms s.

End Re.

(** [_LOCK_FILE_NAME] *)
Definition _LOCK_FILE_NAME : string := ".lock".

(** [[a-zA-Z0-9_-]] *)
Definition class_first : Re.class :=
  [Re.Range "a" "z"; Re.Range "A" "Z"; Re.Range "0" "9"; Re.Lit "_"; Re.Lit "-"]%char.

(** [[a-zA-Z0-9._-]] *)
Definition class_rest : Re.class :=
  [Re.Range "a" "z"; Re.Range "A" "Z"; Re.Range "0" "9"; Re.Lit "."; Re.Lit "_"; Re.Lit "-"]%char.

(** [name_re = re.compile(r"^[a-zA-Z0-9_-][a-zA-Z0-9._-]*")] in [_backup]. *)
Definition name_re : list Re.atom := [(class_first, Re.One); (class_rest, Re.Star)].

(** The pattern of [_parse_args]: [r"^[a-zA-Z0-9._-]+"]. *)
Definition user_re : list Re.atom := [(class_rest, Re.Plus)].

(** The test of [_backup]: a name is kept when [name_re.search(name)] is
    not [None]. *)
Definition name_accepted (name : string) : bool :=
  match Re.search name_re name with
  | Some _ => true
  | None => false
  end.

(** The Repository Name of the data model, as the specification words it:
    the whole name matches [[A-Za-z0-9_-][A-Za-z0-9._-]*]. *)
Definition all_chars (p : ascii → bool) : string → bool :=
  fix go s := match s with
              | EmptyString => true
              | String c s' => p c && go s'
              end.

Definition spec_valid_name (name : string) : bool :=
  match name with
  | EmptyString => false
  | String c rest => Re.class_mem class_first c && all_chars (Re.class_mem class_rest) rest
  end.

Fixpoint contains_char (c : ascii) (s : string) : bool :=
  match s with
  | EmptyString => false
  | String d s' => Ascii.eqb c d || contains_char c s'
  end.

Definition starts_with_dot (s : string) : bool :=
  match s with
  | String "."%char _ => true
  | _ => false
  end.

(** [os.path.join(backup_dir, name)] is the entry [name] of the backup
    directory when [name] is one path component: not empty, no separator
    in it, neither [.] nor [..].  Any other name leads below an entry or
    out of the directory. *)
Definition is_entry_name (name : string) : bool :=
  negb (contains_char "/" name) &&
  bool_decide (name ≠ "") && bool_decide (name ≠ ".") && bool_decide (name ≠ "..").

(** A target of the run whose mirror is an entry of the directory: a name
    that passes the check of [_backup] and is one path component.  Every
    Repository Name of the data model is one. *)
Definition target_name (name : string) : bool :=
  name_accepted name && is_entry_name name.


(** ** Strings of the script *)

(** [str.format] with positional [{}] fields. *)
Fixpoint format (fmt : string) (args : list string) : string :=
  match fmt with
  | String "{" (String "}" rest) =>
      match args with
      | a :: args' => a +:+ format rest args'
      | [] => format rest []
      end
  | String c rest => String c (format rest args)
  | EmptyString => EmptyString
  end.

Definition lower_char (c : ascii) : ascii :=
  if Ascii.leb "A" c && Ascii.leb c "Z"
  then ascii_of_N (N_of_ascii c + 32)
  else c.

(** [name.lower()], for names of ASCII characters ([ascii_name]): the
    letters A to Z are lowered and no other byte changes. *)
Fixpoint lower (s : string) : string :=
  match s with
  | EmptyString => EmptyString
  | String c s' => String (lower_char c) (lower s')
  end.

(** [", ".join(l)] *)
Fixpoint join (sep : string) (l : list string) : string :=
  match l with
  | [] => ""
  | [x] => x
  | x :: l' => x +:+ sep +:+ join sep l'
  end.

(** [sorted(l, key=key)]: Python's sort is stable, and a stable sort by a
    key is unique, so insertion from the right stands for it. *)
Fixpoint insert_by (key : string → string) (x : string) (l : list string) : list string :=
  match l with
  | [] => [x]
  | y :: l' => if String.leb (key x) (key y) then x :: y :: l' else y :: insert_by key x l'
  end.

Fixpoint sorted (key : string → string) (l : list string) : list string :=
  match l with
  | [] => []
  | x :: l' => insert_by key x (sorted key l')
  end.

(** [list.remove(x)]: removes the first item equal to [x]. *)
Fixpoint list_remove (x : string) (l : list string) : list string :=
  match l with
  | [] => []
  | y :: l' => if decide (x = y) then l' else y :: list_remove x l'
  end.

(** ** The outside world *)

(** An entry of the backup directory, as [os.lstat] sees it.  A symbolic
    link is [live] when its target exists. *)
Inductive node := Dir | File | Symlink (live : bool).

Inductive errno := ENOENT | EACCES | ENOTDIR | ENOTEMPTY | EXDEV | EIO.

(** Python's exceptions, as far as the script meets them.  [TypeError] and
    [KeyError] are never caught by the script. *)
Inductive exn :=
| Error (msg : string)
| RequestException (msg : string)
| ValueError
| ExecutionError (msg : string)
| EnvironmentError (e : errno) (msg : string)
| TypeError
| KeyError.

(** [str(e)] *)
Definition str (e : exn) : string :=
  match e with
  | Error msg | RequestException msg | ExecutionError msg | EnvironmentError _ msg => msg
  | ValueError => ""
  | TypeError => "TypeError"
  | KeyError => "'name'"
  end.

#[local] Set Warnings "-register-all".

Inductive json :=
| JNull
| JBool (b : bool)
| JNum (n : Z)
| JStr (s : string)
| JList (items : list json)
| JObj (fields : list (string * json)).

(** What [requests.get] hands back: [json_body] is the value of
    [response.json()], [None] when it raises [ValueError]. *)
Record response := Response {
  status_code : Z;
  reason : string;
  content_type : option string;
  json_body : option json
}.

Inductive http_result :=
| Failed (msg : string)            (* a requests.RequestException *)
| Responded (r : response).

Inductive git_cmd :=
| Fetch (path : string)                 (* git -C path fetch *)
| CloneMirror (url path : string)       (* git clone --mirror url path *)
| GcAggressive (path : string).         (* git -C path gc --aggressive *)

(** [os.stat]: the identity (st_dev, st_ino) of a file, or an error. *)
Inductive stat_result := StatOk (dev ino : N) | StatFail (e : errno).

(** The backup directory as a whole. *)
Inductive dir_status :=
| DirOk (dev ino : N)
| DirMissing                     (* no such path: ENOENT *)
| DirNoAccess                    (* a component of the path denies search *)
| DirNoRead (dev ino : N).       (* it is there, listing it is denied *)

(** [psys.daemon.acquire_pidfile] *)
Inductive pidfile_result :=
| PidAcquired
| PidFileLockedError (msg : string)
| PidFileLockError (msg : string).

Record world := World {
  server : nat → http_result;           (* the answer to GET url?page=n *)
  backup_dir_status : dir_status;
  root_stat : stat_result;              (* os.stat("/") *)
  home_stat : stat_result;              (* os.stat(os.path.expanduser("~")) *)
  pidfile : pidfile_result;
  git : git_cmd → option string;        (* None: exit status 0; Some msg: psh.ExecutionError *)
  clone_leftover : string → bool;       (* a failed clone leaves a partial directory *)
  rmtree_errors : string → nat;         (* how often shutil.rmtree calls onerror *)
  unlink_err : string → option errno;   (* os.unlink *)
  rename_err : string → string → option errno;  (* os.rename *)
  stray_exists : string → bool;         (* os.path.exists on a path that is no entry *)
  stray_effect : string → gmap string node → gmap string node
                                        (* what writing to such a path does to the entries *)
}.

(** ** Traces *)

Inductive level := DEBUG | INFO | WARNING | ERROR.

(** One call of the script to the outside; [ok] records how it went. *)
Inductive call :=
| HttpGet (url : string) (page : nat)
| Listdir
| Remove (path : string) (ok : bool)    (* shutil.rmtree(path) or os.unlink(path) *)
| Git (cmd : git_cmd) (ok : bool)
| Rename (src dst : string) (ok : bool)
| AcquirePidfile
| Log (lvl : level) (fmt : string) (args : list string).

(** ** The monad: directory state, trace output, exceptions *)

Inductive result (A : Type) := Ok (a : A) | Raise (e : exn).
Arguments Ok {A} a.
Arguments Raise {A} e.

Record out (A : Type) := Out {
  res : result A;
  dir : gmap string node;
  evs : list call
}.
Arguments Out {A} res dir evs.
Arguments res {A} o.
Arguments dir {A} o.
Arguments evs {A} o.

Definition M (A : Type) : Type := gmap string node → out A.

Definition ret {A} (a : A) (d : gmap string node) : out A := Out (Ok a) d [].

Definition raise {A} (e : exn) (d : gmap string node) : out A := Out (Raise e) d [].

(** [prepend t o]: the outcome [o], after the calls [t]. *)
Definition prepend {A} (t : list call) (o : out A) : out A :=
  match o with
  | Out r d t' => Out r d (t ++ t')
  end.

Definition bind {A B} (m : M A) (k : A → M B) (d : gmap string node) : out B :=
  match m d with
  | Out (Ok a) d1 t1 => prepend t1 (k a d1)
  | Out (Raise e) d1 t1 => Out (Raise e) d1 t1
  end.

Notation "'let*' x := m 'in' k" := (bind m (λ x, k))
  (at level 10, x name, m at level 100, k at level 200, only parsing).
Notation "m ;;; k" := (bind m (λ _, k))
  (at level 100, right associativity, only parsing).

(** [try: body except <the classes handler answers to>: handler] *)
Definition try_except {A} (body : M A) (handler : exn → option (M A))
    (d : gmap string node) : out A :=
  match body d with
  | Out (Ok a) d1 t1 => Out (Ok a) d1 t1
  | Out (Raise e) d1 t1 =>
      match handler e with
      | Some h => prepend t1 (h d1)
      | None => Out (Raise e) d1 t1
      end
  end.

(** [try: body finally: final] *)
Definition try_finally {A} (body : M A) (final : M unit) (d : gmap string node) : out A :=
  match body d with
  | Out r d1 t1 =>
      match final d1 with
      | Out (Ok _) d2 t2 => Out r d2 (t1 ++ t2)
      | Out (Raise e) d2 t2 => Out (Raise e) d2 (t1 ++ t2)
      end
  end.

Definition emit (c : call) (d : gmap string node) : out unit := Out (Ok tt) d [c].

Definition log (lvl : level) (fmt : string) (args : list string) (d : gmap string node)
  : out unit :=
  emit (Log lvl fmt args) d.

Definition get_dir (d : gmap string node) : out (gmap string node) := Out (Ok d) d [].

Definition set_dir (d' : gmap string node) (_ : gmap string node) : out unit :=
  Out (Ok tt) d' [].

Definition lift {A} (r : result A) (d : gmap string node) : out A := Out r d [].

Arguments ret {A} a d /.
Arguments raise {A} e d /.
Arguments bind {A B} m k d /.
Arguments try_except {A} body handler d /.
Arguments try_finally {A} body final d /.
Arguments emit c d /.
Arguments log lvl fmt args d /.
Arguments get_dir d /.
Arguments set_dir d' _ /.
Arguments lift {A} r d /.
Arguments prepend {A} t !o /.

(** [for x in l: body(x)] *)
Fixpoint for_ {X} (l : list X) (body : X → M unit) : M unit :=
  match l with
  | [] => ret tt
  | x :: l' => body x ;;; for_ l' body
  end.

(** What [os.path.exists] answers: it follows symbolic links, so a dangling
    link does not exist. *)
Definition path_exists (d : gmap string node) (path : string) : bool :=
  match d !! path with
  | Some (Symlink live) => live
  | Some _ => true
  | None => false
  end.

(** ** The primitives, read off the world *)

Section Script.

Variable w : world.

(** What [os.path.exists] answers on [path] below the backup directory. *)
Definition exists_at (d : gmap string node) (path : string) : bool :=
  if is_entry_name path then path_exists d path else stray_exists w path.

(** [os.path.exists(path)] *)
Definition os_path_exists (path : string) : M bool :=
  let* d := get_dir in
  ret (exists_at d path).

(** [os.lstat(path)] *)
Definition os_lstat (path : string) : M node :=
  let* d := get_dir in
  match d !! path with
  | Some n => ret n
  | None => raise (EnvironmentError ENOENT "No such file or directory")
  end.

(** [stat.S_ISDIR(st.st_mode)] *)
Definition S_ISDIR (n : node) : bool :=
  match n with Dir => true | _ => false end.

(** [os.listdir(backup_dir)]: the names of the entries (in the order
    [map_to_list] has them). *)
Definition os_listdir : M (list string) :=
  emit Listdir ;;;
  match backup_dir_status w with
  | DirOk _ _ => let* d := get_dir in ret (map_to_list d).*1
  | DirMissing => raise (EnvironmentError ENOENT "No such file or directory")
  | DirNoAccess | DirNoRead _ _ => raise (EnvironmentError EACCES "Permission denied")
  end.

(** [os.unlink(path)] *)
Definition os_unlink (path : string) : M unit :=
  match unlink_err w path with
  | None =>
      emit (Remove path true) ;;;
      let* d := get_dir in set_dir (delete path d)
  | Some e =>
      emit (Remove path false) ;;;
      raise (EnvironmentError e "unlink failed")
  end.

(** [shutil.rmtree(path, onerror=onerror)]: every failure goes to [onerror]
    and none is raised; the tree is gone when there was none. *)
Definition shutil_rmtree (path : string) (onerror : M unit) : M unit :=
  match rmtree_errors w path with
  | O =>
      emit (Remove path true) ;;;
      let* d := get_dir in set_dir (delete path d)
  | S n =>
      emit (Remove path false) ;;;
      for_ (replicate (S n) tt) (λ _, onerror)
  end.

(** What a rename that succeeds does to the entries: between entries it
    moves one; elsewhere the world tells. *)
Definition rename_effect (src dst : string) (d : gmap string node) : gmap string node :=
  if is_entry_name src && is_entry_name dst then
    match d !! src with
    | Some n => <[dst := n]> (delete src d)
    | None => d
    end
  else stray_effect w dst d.

(** [os.rename(src, dst)] *)
Definition os_rename (src dst : string) : M unit :=
  let* d := get_dir in
  let rename : M unit :=
    match rename_err w src dst with
    | None =>
        emit (Rename src dst true) ;;;
        set_dir (rename_effect src dst d)
    | Some e =>
        emit (Rename src dst false) ;;;
        raise (EnvironmentError e "rename failed")
    end in
  match d !! src with
  | None =>
      if is_entry_name src
      then emit (Rename src dst false) ;;;
           raise (EnvironmentError ENOENT "No such file or directory")
      else rename
  | Some _ => rename
  end.

(** What a [git] command does to the entries: a clone makes its
    destination, and may leave part of it when it fails; [fetch] and [gc]
    work inside an entry.  A destination that is no entry is the world's
    business. *)
Definition git_effect (cmd : git_cmd) (ok : bool) (d : gmap string node) : gmap string node :=
  match cmd with
  | CloneMirror _ path =>
      if is_entry_name path then
        if ok then <[path := Dir]> d
        else if clone_leftover w path then <[path := Dir]> d else d
      else stray_effect w path d
  | Fetch _ | GcAggressive _ => d
  end.

(** [_git]: runs the command and raises [psh.ExecutionError] when it
    fails. *)
Definition _git (cmd : git_cmd) : M unit :=
  match git w cmd with
  | None =>
      emit (Git cmd true) ;;;
      let* d := get_dir in set_dir (git_effect cmd true d)
  | Some msg =>
      emit (Git cmd false) ;;;
      let* d := get_dir in
      set_dir (git_effect cmd false d) ;;;
      raise (ExecutionError msg)
  end.

(** [requests.get(url, params={"page": page}, timeout=30)] *)
Definition requests_get (url : string) (page : nat) : M response :=
  emit (HttpGet url page) ;;;
  match server w page with
  | Failed msg => raise (RequestException msg)
  | Responded r => ret r
  end.

(** [response.json()] *)
Definition response_json (r : response) : M json :=
  match json_body r with
  | Some j => ret j
  | None => raise ValueError
  end.

Definition assoc (k : string) (fields : list (string * json)) : option json :=
  snd <$> find (λ kv, bool_decide (kv.1 = k)) fields.

(** [repo_info["name"]].  A name that is not a string enters the set in the
    source and makes [name.lower()] raise in [_backup]; here it raises
    where the name is read: either way [_backup] ends, before it lists the
    directory, with an exception the script does not catch. *)
Definition getitem_name (repo_info : json) : result string :=
  match repo_info with
  | JObj fields =>
      match assoc "name" fields with
      | Some (JStr s) => Ok s
      | Some _ => Raise TypeError
      | None => Raise KeyError
      end
  | _ => Raise TypeError
  end.

Fixpoint names_of (repos_info : list json) : result (list string) :=
  match repos_info with
  | [] => Ok []
  | j :: rest =>
      match getitem_name j with
      | Ok s =>
          match names_of rest with
          | Ok l => Ok (s :: l)
          | Raise e => Raise e
          end
      | Raise e => Raise e
      end
  end.

(** [os.path.samefile(a, b)] on the results of [os.stat]. *)
Definition os_path_samefile (a b : stat_result) : M bool :=
  match a, b with
  | StatFail e, _ => raise (EnvironmentError e "stat failed")
  | StatOk _ _, StatFail e => raise (EnvironmentError e "stat failed")
  | StatOk d1 i1, StatOk d2 i2 => ret (bool_decide (d1 = d2) && bool_decide (i1 = i2))
  end.

Definition stat_backup_dir : stat_result :=
  match backup_dir_status w with
  | DirOk dev ino | DirNoRead dev ino => StatOk dev ino
  | DirMissing => StatFail ENOENT
  | DirNoAccess => StatFail EACCES
  end.

(** ** The script *)

(** [_check_backup_dir], one round of its loop. *)
Definition check_forbidden (backup_dir forbidden_dir : string) (forbidden_stat : stat_result) : M unit :=
  let* verdict :=
    try_except
      (let* forbidden := os_path_samefile stat_backup_dir forbidden_stat in ret (Some forbidden))
      (λ e, match e with
            | EnvironmentError errno _ =>
                Some match errno with
                     | ENOENT => ret None
                     | _ => raise (Error (format "Failed to check '{}' backup directory against '{}': {}."
                                                 [backup_dir; forbidden_dir; str e]))
                     end
            | _ => None
            end) in
  match verdict with
  | Some true =>
      raise (Error (format ("Invalid backup directory '{}': it mustn't be / or your home directory "
                            +:+ "because this script deletes all contents of the backup directory.")
                           [backup_dir]))
  | _ => ret tt
  end.

Definition _check_backup_dir (backup_dir : string) : M unit :=
  check_forbidden backup_dir "/" (root_stat w) ;;;
  check_forbidden backup_dir "~" (home_stat w).

(** The nested [log_error] of [_rm_path]: the message is built with
    [.format] on a text without [{}], so it is logged as it stands. *)
Definition log_error (error_path error : string) : M unit :=
  log ERROR (format "Failed to remove '%s': %s." [error_path; error]) [].

Definition _rm_path (path : string) : M unit :=
  try_except
    (let* st := os_lstat path in
     if S_ISDIR st
     then shutil_rmtree path (log_error path "")
     else os_unlink path)
    (λ e, match e with
          | EnvironmentError _ _ => Some (log_error path (str e))
          | _ => None
          end).

(** The deletion candidates of [_cleanup]. *)
Definition cleanup_files (files repositories : list string) : gset string :=
  list_to_set files ∖ list_to_set repositories ∖ {[_LOCK_FILE_NAME]}.

(** The body of the loop of [_cleanup]. *)
Definition remove_entry (backup_dir file_name : string) : M unit :=
  let path := file_name in
  (if starts_with_dot file_name
   then log DEBUG "Removing '%s'." [backup_dir +:+ "/" +:+ file_name]
   else log WARNING "Remove deleted repository '%s'." [file_name]) ;;;
  _rm_path path.

(** [_cleanup].  Python walks the set in an order of its own; [elements]
    gives one. *)
Definition _cleanup (backup_dir : string) (repositories : list string) : M unit :=
  let* files :=
    try_except os_listdir
      (λ e, match e with
            | EnvironmentError _ _ =>
                Some (raise (Error (format "Unable to list '{}' directory: {}." [backup_dir; str e])))
            | _ => None
            end) in
  for_ (elements (cleanup_files files repositories)) (remove_entry backup_dir).

Definition max_pages : nat := 100.

(** The body of the outer [try] of [_get_user_repositories]: one page. *)
Definition get_page (url : string) (page : nat) : M (list json) :=
  try_except
    (let* response := requests_get url page in
     if decide (status_code response ≠ 200%Z)
     then raise (Error (reason response))
     else
       try_except
         (if decide (content_type response = Some "application/json")
          then raise ValueError
          else
            let* repos_info := response_json response in
            match repos_info with
            | JList items => ret items
            | _ => raise ValueError
            end)
         (λ e, match e with
               | ValueError => Some (raise (Error "Server returned an invalid response."))
               | _ => None
               end))
    (λ e, match e with
          | RequestException _ | Error _ =>
              Some (raise (Error (format "Failed to get a list of user repositories from {}: {}"
                                         [url; str e])))
          | _ => None
          end).

(** The [for page in range(1, max_pages + 1): ... else: ...] loop; [last] is
    the value [page] has when the [else] branch logs. *)
Fixpoint pages_loop (url : string) (pages : list nat) (last : nat) (repos : gset string)
  : M (gset string) :=
  match pages with
  | [] =>
      log ERROR "Got too many repositories from {} (>{} pages). Skip the rest of pages."
          [url; pretty last] ;;;
      ret repos
  | page :: rest =>
      let* repos_info := get_page url page in
      match repos_info with
      | [] => ret repos
      | _ =>
          let* names := lift (names_of repos_info) in
          pages_loop url rest page (repos ∪ list_to_set names)
      end
  end.

Definition api_url (user : string) : string :=
  "https://api.github.com/users/" +:+ user +:+ "/repos".

(** [_get_user_repositories]; [list(repos)] is [elements]. *)
Definition _get_user_repositories (user : string) : M (list string) :=
  let url := api_url user in
  let* repos := pages_loop url (seq 1 max_pages) 0 ∅ in
  ret (elements repos).

(** [_mirror_repo] *)
Definition _mirror_repo (name url backup_dir : string) : M unit :=
  let backup_path := name in
  let temp_path := "." +:+ name in
  let* present := os_path_exists backup_path in
  if present then
    log INFO "Syncing %s..." [name] ;;;
    try_except (_git (Fetch backup_path))
      (λ e, match e with
            | ExecutionError _ => Some (log ERROR "Failed to sync %s repository: %s." [name; str e])
            | _ => None
            end)
  else
    log INFO "Mirroring %s..." [name] ;;;
    try_except
      (_git (CloneMirror url temp_path) ;;;
       _git (GcAggressive temp_path) ;;;
       try_except (os_rename temp_path backup_path)
         (λ e, match e with
               | EnvironmentError _ _ =>
                   Some (raise (Error (format "Unable to rename '{}' to '{}': {}."
                                              [backup_dir +:+ "/" +:+ temp_path;
                                               backup_dir +:+ "/" +:+ backup_path; str e])))
               | _ => None
               end))
      (λ e, match e with
            | ExecutionError _ | Error _ => Some (log ERROR "Failed to mirror %s: %s." [name; str e])
            | _ => None
            end).

(** The name check of [_backup]: walks a copy of the list and removes the
    rejected names from the list itself. *)
Fixpoint reject_invalid (copy repositories : list string) : M (list string) :=
  match copy with
  | [] => ret repositories
  | name :: rest =>
      if name_accepted name
      then reject_invalid rest repositories
      else
        log ERROR "Got an invalid repository name: '%s'. Ignore it." [name] ;;;
        reject_invalid rest (list_remove name repositories)
  end.

Definition repo_url (user name : string) : string :=
  "https://github.com/" +:+ user +:+ "/" +:+ name +:+ ".git".

(** Lines 99 to 103 of [_backup]: the cleanup, then one [_mirror_repo] per
    repository. *)
Definition mirror_all (user backup_dir : string) (repositories : list string) : M unit :=
  for_ repositories (λ name, _mirror_repo name (repo_url user name) backup_dir).

Definition reconcile (user backup_dir : string) (repositories : list string) : M unit :=
  _cleanup backup_dir repositories ;;;
  mirror_all user backup_dir repositories.

(** The first half of [_backup]: the sorted and checked list of names. *)
Definition targets (user : string) : M (list string) :=
  let* repos := _get_user_repositories user in
  let repositories := sorted lower repos in
  match repositories with
  | _ :: _ =>
      log INFO "User %s has %s repositories: %s."
          [user; pretty (length repositories); join ", " repositories] ;;;
      reject_invalid repositories repositories
  | [] =>
      log INFO "User %s doesn't have any repositories." [user] ;;;
      ret repositories
  end.

Definition _backup (user backup_dir : string) : M unit :=
  let* repositories := targets user in
  reconcile user backup_dir repositories.

Record args := Args {
  user : string;
  backup_dir : string;
  cron : bool;
  debug : bool
}.

(** [psys.daemon.acquire_pidfile(lock_file_path)]: when it succeeds the
    lock file is an entry of the directory.  The answer is the world's;
    the library makes the lock file inside the backup directory, so a
    world whose directory is missing answers with a lock error, and what
    is stated of a missing directory takes that answer as a hypothesis. *)
Definition acquire_pidfile (lock_file_path : string) : M pidfile_result :=
  emit AcquirePidfile ;;;
  match pidfile w with
  | PidAcquired =>
      let* d := get_dir in
      set_dir (<[lock_file_path := File]> d) ;;;
      ret PidAcquired
  | r => ret r
  end.

(** The body of the [try] of [main], after [_parse_args]. *)
Definition run (a : args) : M unit :=
  _check_backup_dir (backup_dir a) ;;;
  let lock_file_path := _LOCK_FILE_NAME in
  let* locked := acquire_pidfile lock_file_path in
  match locked with
  | PidFileLockedError msg =>
      if cron a
      then log DEBUG "Exiting: %s" [msg]
      else raise (Error (format "{}" [msg]))
  | PidFileLockError msg => raise (Error (format "{}" [msg]))
  | PidAcquired =>
      try_finally (_backup (user a) (backup_dir a))
        (try_except (os_unlink lock_file_path)
           (λ e, match e with
                 | EnvironmentError _ _ =>
                     Some (log ERROR "Failed to delete lock file '%s': %s."
                               [backup_dir a +:+ "/" +:+ lock_file_path; str e])
                 | _ => None
                 end))
  end.

(** How the process ends. *)
Inductive exit_status :=
| Exit0                          (* [main] returns *)
| ExitMessage (msg : string)     (* sys.exit(msg): the message, status 1 *)
| ExitUsage                      (* parser.error: status 2 *)
| ExitTraceback (e : exn).       (* an exception nobody caught: status 1 *)

Definition exit_code (s : exit_status) : Z :=
  match s with
  | Exit0 => 0
  | ExitMessage _ | ExitTraceback _ => 1
  | ExitUsage => 2
  end.

(** How [main] ends on the outcome of [run]:
    [except Error as e: sys.exit("Error: {}".format(e))]. *)
Definition exit_of (r : result unit) : exit_status :=
  match r with
  | Ok _ => Exit0
  | Raise (Error msg) => ExitMessage (format "Error: {}" [msg])
  | Raise e => ExitTraceback e
  end.

(** [main]: the user name check of [_parse_args], then [run]. *)
Definition main (a : args) (d : gmap string node) : exit_status * gmap string node * list call :=
  match Re.search user_re (user a) with
  | None => (ExitUsage, d, [])
  | Some _ =>
      let o := run a d in
      (exit_of (res o), dir o, evs o)
  end.

End Script.

(** ** Reading traces *)

(** The entry a call removes, clones into, fetches or renames onto. *)
Definition removes (name : string) (c : call) : bool :=
  match c with
  | Remove path _ => bool_decide (path = name)
  | _ => false
  end.

(** The call fetches into the mirror [name], clones into its temporary path,
    renames something onto [name]. *)
Definition fetches (name : string) (c : call) : bool :=
  match c with
  | Git (Fetch path) _ => bool_decide (path = name)
  | _ => false
  end.

Definition clones (name : string) (c : call) : bool :=
  match c with
  | Git (CloneMirror _ path) _ => bool_decide (path = "." +:+ name)
  | _ => false
  end.

Definition publishes (name : string) (c : call) : bool :=
  match c with
  | Rename _ dst _ => bool_decide (dst = name)
  | _ => false
  end.

Definition is_remove (c : call) : bool :=
  match c with Remove _ _ => true | _ => false end.

Definition is_rename (c : call) : bool :=
  match c with Rename _ _ _ => true | _ => false end.

Definition is_fetch (c : call) : bool :=
  match c with Git (Fetch _) _ => true | _ => false end.

(** A call that changes the directory or a mirror in it. *)
Definition is_mutation (c : call) : bool :=
  match c with
  | Remove _ _ | Git _ _ | Rename _ _ _ => true
  | _ => false
  end.

(** The path a mutation writes to. *)
Definition written (c : call) : list string :=
  match c with
  | Remove path _ => [path]
  | Git (Fetch path) _ | Git (CloneMirror _ path) _ | Git (GcAggressive path) _ => [path]
  | Rename src dst _ => [src; dst]
  | _ => []
  end.

(** The rename that publishes a clone, done. *)
Definition published (c : call) : bool :=
  match c with Rename _ _ true => true | _ => false end.

(** A mutation that failed. *)
Definition failed (c : call) : bool :=
  match c with
  | Remove _ ok | Git _ ok | Rename _ _ ok => negb ok
  | _ => false
  end.

Definition is_error_log (c : call) : bool :=
  match c with Log ERROR _ _ => true | _ => false end.

Definition is_log (c : call) : bool :=
  match c with Log _ _ _ => true | _ => false end.

(** The entries the run set out to remove, in order and as a set. *)
Definition removals (t : list call) : list string :=
  t ≫= λ c, match c with Remove path _ => [path] | _ => [] end.

Definition removed_set (t : list call) : gset string := list_to_set (removals t).

(** The calls [_mirror_repo] makes for the repository [name]. *)
Definition mirrors (user name : string) (c : call) : Prop :=
  match c with
  | Git (Fetch path) _ => path = name
  | Git (CloneMirror url path) _ => url = repo_url user name ∧ path = "." +:+ name
  | Git (GcAggressive path) _ => path = "." +:+ name
  | Rename src dst _ => src = "." +:+ name ∧ dst = name
  | Log _ _ _ => True
  | _ => False
  end.

Definition pages_requested (t : list call) : list nat :=
  t ≫= λ c, match c with HttpGet _ page => [page] | _ => [] end.

(** A small world for examples: the server has the given pages (each a list
    of names) and then empty ones, and nothing fails. *)
Definition repo_json (name : string) : json := JObj [("name", JStr name); ("fork", JBool false)].

Definition page_with_type (ctype : string) (names : list string) : http_result :=
  Responded (Response 200 "OK" (Some ctype) (Some (JList (repo_json <$> names)))).

Definition page_of (names : list string) : http_result :=
  page_with_type "application/json; charset=utf-8" names.

Definition calm_world (pages : list (list string)) : world := {|
  server := λ page, page_of (default [] (pages !! (page - 1)));
  backup_dir_status := DirOk 1 42;
  root_stat := StatOk 1 2;
  home_stat := StatOk 1 7;
  pidfile := PidAcquired;
  git := λ _, None;
  clone_leftover := λ _, false;
  rmtree_errors := λ _, 0;
  unlink_err := λ _, None;
  rename_err := λ _ _, None;
  stray_exists := λ _, false;
  stray_effect := λ _ d, d
|}.


(** Worlds that differ from another in one respect. *)
Definition with_server (f : nat → http_result) (w : world) : world :=
  World f (backup_dir_status w) (root_stat w) (home_stat w) (pidfile w)
        (git w) (clone_leftover w) (rmtree_errors w) (unlink_err w) (rename_err w)
        (stray_exists w) (stray_effect w).

Definition with_status (s : dir_status) (w : world) : world :=
  World (server w) s (root_stat w) (home_stat w) (pidfile w)
        (git w) (clone_leftover w) (rmtree_errors w) (unlink_err w) (rename_err w)
        (stray_exists w) (stray_effect w).

Definition with_pidfile (r : pidfile_result) (w : world) : world :=
  World (server w) (backup_dir_status w) (root_stat w) (home_stat w) r
        (git w) (clone_leftover w) (rmtree_errors w) (unlink_err w) (rename_err w)
        (stray_exists w) (stray_effect w).

Definition with_git (f : git_cmd → option string) (w : world) : world :=
  World (server w) (backup_dir_status w) (root_stat w) (home_stat w) (pidfile w)
        f (clone_leftover w) (rmtree_errors w) (unlink_err w) (rename_err w)
        (stray_exists w) (stray_effect w).

Definition with_rmtree_errors (f : string → nat) (w : world) : world :=
  World (server w) (backup_dir_status w) (root_stat w) (home_stat w) (pidfile w)
        (git w) (clone_leftover w) f (unlink_err w) (rename_err w)
        (stray_exists w) (stray_effect w).



(** What a call does to the directory, and where a trace leaves it. *)
Definition effect (w : world) (c : call) (d : gmap string node) : gmap string node :=
  match c with
  | Remove path true => delete path d
  | Git cmd ok => git_effect w cmd ok d
  | Rename src dst true => rename_effect w src dst d
  | AcquirePidfile =>
      match pidfile w with
      | PidAcquired => <[_LOCK_FILE_NAME := File]> d
      | _ => d
      end
  | _ => d
  end.

Definition replay (w : world) (t : list call) (d : gmap string node) : gmap string node :=
  foldl (λ d c, effect w c d) d t.

(** The server answers page [page] with a list of repositories of these
    names, in a response the script takes. *)
Definition serves (w : world) (page : nat) (names : list string) : Prop :=
  ∃ r items,
    server w page = Responded r ∧
    status_code r = 200%Z ∧
    content_type r ≠ Some "application/json" ∧
    json_body r = Some (JList items) ∧
    names_of items = Ok names.

(** The names on pages [1 .. n]. *)
Definition collected (names : nat → list string) (n : nat) : gset string :=
  ⋃ ((λ page, list_to_set (names page)) <$> seq 1 n).

(** A call of the listing: a request or a log line. *)
Definition is_listing_call (c : call) : bool :=
  match c with
  | HttpGet _ _ | Log _ _ _ => true
  | _ => false
  end.

Definition listing_error (url msg : string) : exn :=
  Error (format "Failed to get a list of user repositories from {}: {}" [url; msg]).

Definition ceiling_log (url : string) (last : nat) : call :=
  Log ERROR "Got too many repositories from {} (>{} pages). Skip the rest of pages."
      [url; pretty last].

Definition invalid_response_error (url : string) : exn :=
  Error (format "Failed to get a list of user repositories from {}: {}"
                [url; "Server returned an invalid response."]).

(** The log lines of the workers. *)
Definition rm_failure_log : call := Log ERROR "Failed to remove '%s': %s." [].

Definition mirror_failure_log (name msg : string) : call :=
  Log ERROR "Failed to mirror %s: %s." [name; msg].

Definition lock_unlink_log (bd : string) : call :=
  Log ERROR "Failed to delete lock file '%s': %s."
      [bd +:+ "/" +:+ _LOCK_FILE_NAME; "unlink failed"].

Definition removal_log (bd file_name : string) : call :=
  if starts_with_dot file_name
  then Log DEBUG "Removing '%s'." [bd +:+ "/" +:+ file_name]
  else Log WARNING "Remove deleted repository '%s'." [file_name].

(** ** More readers of the trace *)

(** The line of [_backup] on a name that fails the check. *)
Definition rejection_log (name : string) : call :=
  Log ERROR "Got an invalid repository name: '%s'. Ignore it." [name].

(** The line of [_backup] on the list it got from the server, written
    before any name is checked. *)
Definition census_log (user : string) (repositories : list string) : call :=
  match repositories with
  | [] => Log INFO "User %s doesn't have any repositories." [user]
  | _ :: _ =>
      Log INFO "User %s has %s repositories: %s."
          [user; pretty (length repositories); join ", " repositories]
  end.

(** The repository a [git] call starts to mirror: the one it fetches into,
    or the one whose temporary path it clones into. *)
Definition attempted (c : call) : option string :=
  match c with
  | Git (Fetch path) _ => Some path
  | Git (CloneMirror _ (String "." name)) _ => Some name
  | _ => None
  end.

Definition is_git (c : call) : bool :=
  match c with Git _ _ => true | _ => false end.

(** The error of [_check_backup_dir] on a forbidden directory. *)
Definition forbidden_dir_error (backup_dir : string) : exn :=
  Error (format ("Invalid backup directory '{}': it mustn't be / or your home directory "
                 +:+ "because this script deletes all contents of the backup directory.")
                [backup_dir]).

(** The error of [_cleanup] on a directory it cannot list. *)
Definition unlistable_error (backup_dir msg : string) : exn :=
  Error (format "Unable to list '{}' directory: {}." [backup_dir; msg]).

(** ** [setup.py]

    [get_requirements] reads [requirements.txt] line by line; the lines
    are given here as the file object yields them.  [isspace] stands for
    the characters [str.strip] removes. *)

Section Setup.

Variable isspace : ascii → bool.

Fixpoint lstrip (s : string) : string :=
  match s with
  | String c s' => if isspace c then lstrip s' else s
  | EmptyString => EmptyString
  end.

Fixpoint rstrip (s : string) : string :=
  match s with
  | String c s' =>
      match rstrip s' with
      | EmptyString => if isspace c then EmptyString else String c EmptyString
      | r => String c r
      end
  | EmptyString => EmptyString
  end.

(** [requirement.strip()] *)
Definition strip (s : string) : string := rstrip (lstrip s).

(** A string that does not begin with white space. *)
Definition no_lead (s : string) : Prop :=
  match s with String c _ => isspace c = false | EmptyString => True end.

(** [s.startswith(prefix)] *)
Definition startswith (prefix s : string) : bool := String.prefix prefix s.

(** [get_requirements], on the lines of the file. *)
Definition get_requirements (requirements_txt : list string) : list string :=
  foldl (λ requirements requirement,
           let requirement := strip requirement in
           if negb (String.eqb requirement "") && negb (startswith "#" requirement)
           then requirements ++ [requirement]
           else requirements)
        [] requirements_txt.

End Setup.

(** A line that gives a requirement once stripped: not empty, no comment. *)
Definition is_requirement (s : string) : bool :=
  negb (String.eqb s "") && negb (startswith "#" s).

(** The white space of ASCII as [str.strip] of Python 3 has it: space,
    tab, line feed, vertical tab, form feed, carriage return, and the four
    separators 0x1c to 0x1f. *)
Definition ascii_space (c : ascii) : bool :=
  existsb (Ascii.eqb c)
          [" "; "009"; "010"; "011"; "012"; "013"; "028"; "029"; "030"; "031"]%char.

(** The first and the last character of a string. *)
Definition first_char (s : string) : option ascii :=
  match s with
  | String c _ => Some c
  | EmptyString => None
  end.

Fixpoint last_char (s : string) : option ascii :=
  match s with
  | EmptyString => None
  | String c EmptyString => Some c
  | String _ s' => last_char s'
  end.

Definition nl : string := String "010" "".

(** ** What the logging calls write

    [logging] formats a record as [msg % args] when the call has arguments
    and takes the text as it stands when it has none.  The texts of the
    script have no conversion but [%s].  A text with fewer or more
    conversions than arguments makes [%] raise [TypeError]; [logging]
    reports that on stderr and drops the record. *)

Fixpoint percent (fmt : string) (args : list string) : option string :=
  match fmt with
  | String "%" (String "s" rest) =>
      match args with
      | a :: args' => (λ r, a +:+ r) <$> percent rest args'
      | [] => None
      end
  | String "%" (String "%" rest) => String "%" <$> percent rest args
  | String "%" _ => None
  | String c rest => String c <$> percent rest args
  | EmptyString => match args with [] => Some "" | _ :: _ => None end
  end.

(** The record a call puts on the log, if any: its level and its text. *)
Definition log_record (c : call) : option (level * string) :=
  match c with
  | Log lvl fmt [] => Some (lvl, fmt)
  | Log lvl fmt args => pair lvl <$> percent fmt args
  | _ => None
  end.



(** A name of ASCII characters.  On such names [lower] is [str.lower] and
    the order of the bytes is the order of Python's strings. *)
Definition ascii_name (name : string) : bool :=
  all_chars (λ c, bool_decide (N_of_ascii c < 128)%N) name.

(** * Proofs *)

#[local] Set Warnings "-clear-no-such-hyp".

(** ** The name check *)

Lemma star_total cs k s :
  (∀ s', is_Some (k s')) → is_Some (Re.star cs k s).
Proof.
  intros Hk. induction s as [|c s IH]; simpl; [apply Hk|].
  destruct (Re.class_mem cs c); [|apply Hk].
  destruct IH as [n ->]. by eexists.
Qed.

(** What [name_re.search] looks at: the first character, nothing else. *)
Lemma name_accepted_iff s :
  name_accepted s = true ↔
  ∃ c rest, s = String c rest ∧ Re.class_mem class_first c = true.
Proof.
  unfold name_accepted, Re.search, name_re. split.
  - destruct s as [|c rest]; cbn -[Re.class_mem]; [discriminate|].
    destruct (Re.class_mem class_first c) eqn:Hc; [|discriminate].
    intros _. by exists c, rest.
  - intros (c & rest & -> & Hc). cbn -[Re.class_mem]. rewrite Hc.
    destruct (star_total class_rest (λ _, Some 0) rest) as [n Hn]; [by eexists|].
    cbn -[Re.class_mem] in Hn. by rewrite Hn.
Qed.

Lemma valid_name_accepted s :
  spec_valid_name s = true → name_accepted s = true.
Proof.
  destruct s as [|c rest]; cbn -[Re.class_mem]; [discriminate|].
  intros [Hc _]%andb_prop. apply name_accepted_iff. by exists c, rest.
Qed.

Lemma dot_name_rejected s :
  starts_with_dot s = true → name_accepted s = false.
Proof.
  intros Hdot. apply not_true_is_false. intros (c & rest & -> & Hc)%name_accepted_iff.
  simpl in Hdot. destruct c as [[] [] [] [] [] [] [] []]; try done.
Qed.

Lemma accepted_not_hidden n m :
  name_accepted n = true → n ≠ "." +:+ m.
Proof.
  intros Hn ->. by rewrite dot_name_rejected in Hn.
Qed.

Lemma hidden_ne name : name ≠ "." +:+ name.
Proof.
  change ("." +:+ name) with (String "." name).
  intros Heq. apply (f_equal String.length) in Heq. cbn in Heq. lia.
Qed.

Lemma hidden_inj n m : "." +:+ n = "." +:+ m → n = m.
Proof. change ("." +:+ ?x) with (String "." x). by intros [= ->]. Qed.


(** C1 (the code departs from the claim).  The pattern of [_backup] has no
    anchor at its end, so [search] is content with the first character: the
    name [a/b] has a path separator in it, is no Repository Name of the
    data model, and yet passes the check and stays in the working set. *)
Theorem C1_separator_name_is_accepted :
  contains_char "/" "a/b" = true ∧
  spec_valid_name "a/b" = false ∧
  name_accepted "a/b" = true ∧
  res (targets (calm_world [["a/b"]]) "me" ∅) = Ok ["a/b"].
Proof. repeat split; vm_compute; reflexivity. Qed.

(** ** Loops of the monad *)

Ltac run_monad :=
  cbn [bind try_except try_finally ret raise emit log get_dir set_dir lift prepend
       res dir evs app].

Lemma prepend_eq {A} t (o : out A) : prepend t o = Out (res o) (dir o) (t ++ evs o).
Proof. by destruct o. Qed.

Lemma forallb_Forall {X} (f : X → bool) (l : list X) :
  forallb f l = true ↔ Forall (λ x, f x = true) l.
Proof.
  induction l as [|x l IH]; cbn; [by split; [constructor|]|].
  rewrite andb_true_iff, IH, Forall_cons. done.
Qed.

Lemma bind_eq {A B} (m : M A) (k : A → M B) d :
  bind m k d =
  match res (m d) with
  | Ok a => prepend (evs (m d)) (k a (dir (m d)))
  | Raise e => Out (Raise e) (dir (m d)) (evs (m d))
  end.
Proof. unfold bind. by destruct (m d) as [[] ? ?]. Qed.

(** A loop whose body never raises runs to its end; an invariant on the
    items done, the directory and the trace so far goes through. *)
Lemma for_invariant_from {X} (body : X → M unit)
    (I : list X → gmap string node → list call → Prop) (l : list X) :
  (∀ x d, res (body x d) = Ok tt) →
  ∀ rest done d t,
    l = done ++ rest →
    (∀ done' x rest' d' t',
        l = done' ++ x :: rest' → I done' d' t' →
        I (done' ++ [x]) (dir (body x d')) (t' ++ evs (body x d'))) →
    I done d t →
    res (for_ rest body d) = Ok tt ∧
    I l (dir (for_ rest body d)) (t ++ evs (for_ rest body d)).
Proof.
  intros Hok rest. induction rest as [|x rest IH]; intros done d t Hl Hstep HI.
  - cbn. rewrite !app_nil_r in *. by subst.
  - cbn [for_]. rewrite bind_eq, Hok, prepend_eq. cbn [res dir evs].
    destruct (IH (done ++ [x]) (dir (body x d)) (t ++ evs (body x d))) as [Hres HI'].
    + by rewrite <- app_assoc.
    + done.
    + by eapply Hstep.
    + split; [done|]. by rewrite app_assoc.
Qed.

Lemma for_invariant {X} (body : X → M unit)
    (I : list X → gmap string node → list call → Prop) (l : list X) d :
  (∀ x d, res (body x d) = Ok tt) →
  I [] d [] →
  (∀ done x rest d' t,
      l = done ++ x :: rest → I done d' t →
      I (done ++ [x]) (dir (body x d')) (t ++ evs (body x d'))) →
  res (for_ l body d) = Ok tt ∧ I l (dir (for_ l body d)) (evs (for_ l body d)).
Proof.
  intros Hok H0 Hstep.
  by apply (for_invariant_from body I l Hok l [] d []).
Qed.

Lemma for_replicate_log n (c : call) d :
  for_ (replicate n tt) (λ _, emit c) d = Out (Ok tt) d (replicate n c).
Proof.
  revert d. induction n as [|n IH]; intros d; [done|].
  cbn [replicate for_]. run_monad. by rewrite IH.
Qed.

(** ** The two workers, case by case *)

Lemma _rm_path_cases w path d :
  _rm_path w path d =
  match d !! path with
  | None => Out (Ok tt) d [rm_failure_log]
  | Some Dir =>
      match rmtree_errors w path with
      | O => Out (Ok tt) (delete path d) [Remove path true]
      | S n => Out (Ok tt) d (Remove path false :: replicate (S n) rm_failure_log)
      end
  | Some _ =>
      match unlink_err w path with
      | None => Out (Ok tt) (delete path d) [Remove path true]
      | Some e => Out (Ok tt) d [Remove path false; rm_failure_log]
      end
  end.
Proof.
  unfold _rm_path, os_lstat, shutil_rmtree, os_unlink, log_error, rm_failure_log.
  run_monad.
  destruct (d !! path) as [[| |live]|] eqn:Hp; run_monad; cbn [S_ISDIR].
  - destruct (rmtree_errors w path) as [|n]; run_monad; [done|].
    change (format _ _) with "Failed to remove '%s': %s.".
    unfold log. by rewrite (for_replicate_log (S n)).
  - by destruct (unlink_err w path).
  - by destruct (unlink_err w path).
  - done.
Qed.

Lemma _mirror_repo_cases w name url bd d :
  _mirror_repo w name url bd d =
  let temp := "." +:+ name in
  let cloned := git_effect w (CloneMirror url temp) true d in
  if exists_at w d name then
    match git w (Fetch name) with
    | None => Out (Ok tt) d [Log INFO "Syncing %s..." [name]; Git (Fetch name) true]
    | Some msg =>
        Out (Ok tt) d [Log INFO "Syncing %s..." [name]; Git (Fetch name) false;
                       Log ERROR "Failed to sync %s repository: %s." [name; msg]]
    end
  else
    match git w (CloneMirror url temp) with
    | Some msg =>
        Out (Ok tt) (git_effect w (CloneMirror url temp) false d)
            [Log INFO "Mirroring %s..." [name]; Git (CloneMirror url temp) false;
             mirror_failure_log name msg]
    | None =>
        match git w (GcAggressive temp) with
        | Some msg =>
            Out (Ok tt) cloned
                [Log INFO "Mirroring %s..." [name]; Git (CloneMirror url temp) true;
                 Git (GcAggressive temp) false; mirror_failure_log name msg]
        | None =>
            match rename_err w temp name with
            | Some e =>
                Out (Ok tt) cloned
                    [Log INFO "Mirroring %s..." [name]; Git (CloneMirror url temp) true;
                     Git (GcAggressive temp) true; Rename temp name false;
                     mirror_failure_log name
                       (format "Unable to rename '{}' to '{}': {}."
                               [bd +:+ "/" +:+ temp; bd +:+ "/" +:+ name; "rename failed"])]
            | None =>
                Out (Ok tt) (rename_effect w temp name cloned)
                    [Log INFO "Mirroring %s..." [name]; Git (CloneMirror url temp) true;
                     Git (GcAggressive temp) true; Rename temp name true]
            end
        end
    end.
Proof.
  unfold _mirror_repo, os_path_exists, _git, os_rename, mirror_failure_log.
  run_monad.
  destruct (exists_at w d name).
  - by destruct (git w (Fetch name)).
  - destruct (git w (CloneMirror url ("." +:+ name))) as [msg|] eqn:Hclone; run_monad.
    { by cbn [str]. }
    destruct (git w (GcAggressive ("." +:+ name))) as [msg|] eqn:Hgc; run_monad.
    { by cbn [str]. }
    change (git_effect w (GcAggressive ("." +:+ name)) true ?x) with x.
    assert (match git_effect w (CloneMirror url ("." +:+ name)) true d !! ("." +:+ name) with
            | Some _ => True
            | None => is_entry_name ("." +:+ name) = false
            end) as Htemp.
    { cbn [git_effect]. destruct (is_entry_name ("." +:+ name)) eqn:He.
      - by rewrite lookup_insert_eq.
      - by destruct (stray_effect w _ d !! _). }
    destruct (git_effect w (CloneMirror url ("." +:+ name)) true d !! ("." +:+ name));
      [|rewrite Htemp]; destruct (rename_err w ("." +:+ name) name); run_monad; done.
Qed.

(** ** The remote lister *)

Lemma get_page_cases w url page d :
  get_page w url page d =
  let fail msg := Out (Raise (listing_error url msg)) d [HttpGet url page] in
  match server w page with
  | Failed msg => fail msg
  | Responded r =>
      if decide (status_code r ≠ 200%Z) then fail (reason r)
      else if decide (content_type r = Some "application/json")
      then fail "Server returned an invalid response."
      else
        match json_body r with
        | Some (JList items) => Out (Ok items) d [HttpGet url page]
        | _ => fail "Server returned an invalid response."
        end
  end.
Proof.
  unfold get_page, requests_get, response_json, listing_error. run_monad.
  destruct (server w page) as [msg|r]; run_monad; [done|].
  destruct (decide (status_code r ≠ 200%Z)); run_monad; [done|].
  destruct (decide (content_type r = Some "application/json")); run_monad; [done|].
  destruct (json_body r) as [[]|]; run_monad; done.
Qed.

(** On a response with status 200 whose content type is not the bare
    [application/json], the invalid-response error is raised exactly when
    the body does not parse or is not a list. *)
Lemma get_page_invalid_iff w url page d r :
  server w page = Responded r →
  status_code r = 200%Z →
  content_type r ≠ Some "application/json" →
  res (get_page w url page d) = Raise (invalid_response_error url) ↔
  ¬ ∃ items, json_body r = Some (JList items).
Proof.
  intros Hr Hs Hc. rewrite get_page_cases, Hr. cbv zeta.
  destruct (decide (status_code r ≠ 200%Z)); [done|].
  destruct (decide (content_type r = Some "application/json")); [done|].
  destruct (json_body r) as [[]|]; cbn; split; try done;
    try (intros _ [items [=]]); try (intros _ [items ?]; done).
  intros H. exfalso. apply H. by eexists.
Qed.

Lemma names_of_nil items : names_of items = Ok [] → items = [].
Proof.
  destruct items as [|j items]; [done|]. cbn.
  destruct (getitem_name j); [|done]. by destruct (names_of items).
Qed.

Lemma get_page_serves w url page d names :
  serves w page names →
  ∃ items, get_page w url page d = Out (Ok items) d [HttpGet url page] ∧
           names_of items = Ok names.
Proof.
  intros (r & items & Hr & Hs & Hc & Hb & Hn). exists items. split; [|done].
  rewrite get_page_cases, Hr. cbv zeta.
  destruct (decide (status_code r ≠ 200%Z)); [done|].
  destruct (decide (content_type r = Some "application/json")); [done|].
  by rewrite Hb.
Qed.

(** One round of the loop on a page that has names. *)
Lemma pages_loop_next w url page rest last repos d names :
  serves w page names → names ≠ [] →
  pages_loop w url (page :: rest) last repos d =
  let o := pages_loop w url rest page (repos ∪ list_to_set names) d in
  Out (res o) (dir o) (HttpGet url page :: evs o).
Proof.
  intros Hs Hne. destruct (get_page_serves w url page d names Hs) as (items & Hp & Hn).
  cbn [pages_loop]. unfold bind at 1. rewrite Hp.
  destruct items as [|j items]; [by injection Hn as <-|].
  unfold bind, lift. rewrite Hn. by rewrite !prepend_eq.
Qed.

Lemma pages_loop_break w url page rest last repos d :
  serves w page [] →
  pages_loop w url (page :: rest) last repos d = Out (Ok repos) d [HttpGet url page].
Proof.
  intros Hs. destruct (get_page_serves w url page d [] Hs) as (items & Hp & Hn).
  apply names_of_nil in Hn as ->.
  cbn [pages_loop]. unfold bind at 1. rewrite Hp. done.
Qed.

Lemma collected_S names n :
  collected names (S n) = collected names n ∪ list_to_set (names (S n)).
Proof.
  unfold collected. rewrite seq_S, fmap_app, union_list_app_L. cbn.
  by rewrite (right_id_L ∅ (∪)).
Qed.

Lemma elem_of_collected names n x :
  x ∈ collected names n ↔ ∃ p, 1 ≤ p ≤ n ∧ x ∈ names p.
Proof.
  induction n as [|n IH].
  - unfold collected. cbn. split; [set_solver|]. intros (p & ? & _). lia.
  - rewrite collected_S, elem_of_union, IH, elem_of_list_to_set. split.
    + intros [(p & ? & ?)|?]; [exists p|exists (S n)]; split; auto; lia.
    + intros (p & ? & ?). destruct (decide (p = S n)) as [->|]; [by right|].
      left. exists p. split; [lia|done].
Qed.

(** The loop from page [S a] on, when the pages up to [stop] have names and
    page [S stop] is empty or beyond the ceiling. *)
Lemma pages_loop_run w url names stop : ∀ n a last d,
  a + n = max_pages → a ≤ stop → stop ≤ max_pages →
  (∀ p, 1 ≤ p ≤ stop → serves w p (names p) ∧ names p ≠ []) →
  (stop < max_pages → serves w (S stop) []) →
  (n = 0 → last = max_pages) →
  pages_loop w url (seq (S a) n) last (collected names a) d =
  Out (Ok (collected names stop)) d
      (if decide (stop = max_pages)
       then (HttpGet url <$> seq (S a) n) ++ [ceiling_log url max_pages]
       else HttpGet url <$> seq (S a) (S stop - a)).
Proof.
  induction n as [|n IH]; intros a last d Han Ha Hstop Hpages Hend Hlast.
  - assert (a = max_pages) as -> by lia. assert (stop = max_pages) as -> by lia.
    rewrite decide_True by done. cbn [seq pages_loop]. rewrite Hlast by done. done.
  - cbn [seq]. destruct (decide (a = stop)) as [->|Hne].
    + rewrite decide_False by lia. rewrite pages_loop_break by (apply Hend; lia).
      replace (S stop - stop) with 1 by lia. done.
    + destruct (Hpages (S a)) as [Hs Hnonempty]; [lia|].
      rewrite (pages_loop_next _ _ _ _ _ _ _ _ Hs Hnonempty). cbv zeta.
      rewrite <- collected_S. rewrite IH; try done; try lia.
      destruct (decide (stop = max_pages)); cbn [res dir evs]; [done|].
      replace (S stop - a) with (S (S stop - S a)) by lia. done.
Qed.

(** A page the lister cannot take: the request fails, the status is not
    200, or the answer is no list. *)
Lemma get_page_bad w url page d :
  match server w page with
  | Failed _ => True
  | Responded r =>
      status_code r ≠ 200%Z ∨ content_type r = Some "application/json" ∨
      ¬ ∃ items, json_body r = Some (JList items)
  end →
  ∃ msg, get_page w url page d = Out (Raise (listing_error url msg)) d [HttpGet url page].
Proof.
  rewrite get_page_cases. cbv zeta. destruct (server w page) as [msg|r]; [by eexists|].
  destruct (decide (status_code r ≠ 200%Z)); [by eexists|].
  destruct (decide (content_type r = Some "application/json")); [by eexists|].
  intros [?|[?|Hbody]]; [done..|].
  destruct (json_body r) as [[]|]; try by eexists.
  destruct Hbody. by eexists.
Qed.

(** The lister fails on the first such page it comes to. *)
Lemma pages_loop_raises w url names k : ∀ n a last d,
  a ≤ k → k < a + n →
  (∀ p, 1 ≤ p ≤ k → serves w p (names p) ∧ names p ≠ []) →
  (∃ msg, ∀ d', get_page w url (S k) d' =
                Out (Raise (listing_error url msg)) d' [HttpGet url (S k)]) →
  ∃ msg, res (pages_loop w url (seq (S a) n) last (collected names a) d) =
         Raise (listing_error url msg).
Proof.
  induction n as [|n IH]; intros a last d Ha Hk Hpages [msg Hbad]; [lia|].
  cbn [seq]. destruct (decide (a = k)) as [->|Hne].
  - exists msg. cbn [pages_loop]. by rewrite bind_eq, Hbad.
  - destruct (Hpages (S a)) as [Hs Hnonempty]; [lia|].
    rewrite (pages_loop_next _ _ _ _ _ _ _ _ Hs Hnonempty). cbv zeta. cbn [res].
    rewrite <- collected_S. apply IH; try done; try lia. by exists msg.
Qed.

Lemma lister_raises_on_bad_page w user d names k :
  k < max_pages →
  (∀ p, 1 ≤ p ≤ k → serves w p (names p) ∧ names p ≠ []) →
  match server w (S k) with
  | Failed _ => True
  | Responded r =>
      status_code r ≠ 200%Z ∨ content_type r = Some "application/json" ∨
      ¬ ∃ items, json_body r = Some (JList items)
  end →
  ∃ msg, res (_get_user_repositories w user d) = Raise (listing_error (api_url user) msg).
Proof.
  intros Hk Hpages Hbad.
  destruct (pages_loop_raises w (api_url user) names k max_pages 0 0 d) as [msg Hmsg];
    try done; try lia.
  - destruct (server w (S k)) as [m|r] eqn:Hs.
    + exists m. intros d'. rewrite get_page_cases, Hs. done.
    + pose proof (λ d', get_page_bad w (api_url user) (S k) d') as Hg.
      rewrite Hs in Hg. destruct (Hg d Hbad) as [msg Hmsg]. exists msg.
      intros d'. destruct (Hg d' Hbad) as [msg' Hmsg'].
      rewrite get_page_cases in *. rewrite Hs in *. cbv zeta in *.
      destruct (decide (status_code r ≠ 200%Z)); [congruence|].
      destruct (decide (content_type r = Some "application/json")); [congruence|].
      destruct (json_body r) as [[]|]; congruence.
  - exists msg. unfold _get_user_repositories. cbv zeta. rewrite bind_eq.
    change (∅ : gset string) with (collected names 0). by rewrite Hmsg.
Qed.

(** The listing reads the server only, and leaves the directory alone. *)
Lemma get_page_frame w w' url page d d' :
  server w page = server w' page →
  ∃ r, get_page w url page d = Out r d [HttpGet url page] ∧
       get_page w' url page d' = Out r d' [HttpGet url page].
Proof.
  intros Hs. rewrite !get_page_cases, <- Hs. cbv zeta.
  destruct (server w page) as [msg|r]; [by eexists|].
  destruct (decide (status_code r ≠ 200%Z)); [by eexists|].
  destruct (decide (content_type r = Some "application/json")); [by eexists|].
  destruct (json_body r) as [[]|]; by eexists.
Qed.

Lemma pages_loop_frame w w' url pages : ∀ last repos d d',
  (∀ p, server w p = server w' p) →
  pages_loop w url pages last repos d =
    Out (res (pages_loop w' url pages last repos d')) d
        (evs (pages_loop w' url pages last repos d')) ∧
  forallb is_listing_call (evs (pages_loop w' url pages last repos d')) = true.
Proof.
  induction pages as [|page rest IH]; intros last repos d d' Hs; [done|].
  cbn [pages_loop].
  destruct (get_page_frame w w' url page d d' (Hs page)) as (r & H1 & H2).
  rewrite !bind_eq, H1, H2. cbn [res dir evs].
  destruct r as [items|e]; [|done].
  destruct items as [|j items]; [done|].
  rewrite !bind_eq. cbn [lift res dir evs].
  destruct (names_of (j :: items)) as [names|e]; [|done].
  rewrite !prepend_eq. cbn [res dir evs app].
  destruct (IH page (repos ∪ list_to_set names) d d' Hs) as [-> Hc].
  cbn [res dir evs forallb is_listing_call]. by rewrite Hc.
Qed.

Lemma listing_frame w w' user d d' :
  (∀ p, server w p = server w' p) →
  _get_user_repositories w user d =
    Out (res (_get_user_repositories w' user d')) d
        (evs (_get_user_repositories w' user d')) ∧
  forallb is_listing_call (evs (_get_user_repositories w' user d')) = true.
Proof.
  intros Hs. unfold _get_user_repositories. cbv zeta. rewrite !bind_eq.
  destruct (pages_loop_frame w w' (api_url user) (seq 1 max_pages) 0 ∅ d d' Hs) as [-> Hc].
  cbn [res dir evs].
  destruct (res (pages_loop w' _ _ _ _ d')); cbn [res dir evs ret prepend];
    rewrite ?app_nil_r; done.
Qed.

Lemma listing_names w user d raw :
  res (_get_user_repositories w user d) = Ok raw → NoDup raw.
Proof.
  unfold _get_user_repositories. cbv zeta. rewrite bind_eq.
  destruct (res (pages_loop w _ _ _ _ d)); cbn; [|done].
  intros [= <-]. apply NoDup_elements.
Qed.

(** ** Sorting and checking the names *)

Lemma insert_by_perm key x l : insert_by key x l ≡ₚ x :: l.
Proof.
  induction l as [|y l IH]; cbn; [done|].
  destruct (String.leb (key x) (key y)); [done|].
  rewrite IH. apply Permutation_swap.
Qed.

Lemma sorted_perm key l : sorted key l ≡ₚ l.
Proof.
  induction l as [|x l IH]; cbn; [done|]. by rewrite insert_by_perm, IH.
Qed.

Lemma elem_of_list_remove x y l :
  NoDup l → x ∈ list_remove y l ↔ x ∈ l ∧ x ≠ y.
Proof.
  induction 1 as [|z l Hz Hl IH]; cbn; [set_solver|].
  destruct (decide (y = z)) as [->|Hne].
  - rewrite elem_of_cons. split; [|naive_solver].
    intros Hx. split; [by right|]. by intros ->.
  - rewrite !elem_of_cons, IH. naive_solver.
Qed.

Lemma NoDup_list_remove y l : NoDup l → NoDup (list_remove y l).
Proof.
  induction 1 as [|z l Hz Hl IH]; cbn; [constructor|].
  destruct (decide (y = z)); [done|].
  constructor; [|done]. rewrite elem_of_list_remove by done. naive_solver.
Qed.

Lemma reject_invalid_spec copy : ∀ repositories (d : gmap string node),
  ∃ l t,
    (∀ d', reject_invalid copy repositories d' = Out (Ok l) d' t) ∧
    forallb is_listing_call t = true ∧
    (NoDup repositories →
     NoDup l ∧
     ∀ x, x ∈ l ↔ x ∈ repositories ∧ (x ∈ copy → name_accepted x = true)).
Proof.
  induction copy as [|name rest IH]; intros repositories d.
  - exists repositories, []. split; [done|]. split; [done|].
    intros Hnd. split; [done|]. set_solver.
  - cbn [reject_invalid]. destruct (name_accepted name) eqn:Hacc.
    + destruct (IH repositories d) as (l & t & Hrun & Hcalls & Hl).
      exists l, t. split; [done|]. split; [done|].
      intros Hnd. destruct (Hl Hnd) as [? Hmem]. split; [done|].
      intros x. rewrite Hmem, elem_of_cons. naive_solver.
    + destruct (IH (list_remove name repositories) d) as (l & t & Hrun & Hcalls & Hl).
      eexists l, (_ :: t). split; [|split].
      * intros d'. run_monad. by rewrite Hrun.
      * done.
      * intros Hnd. destruct (Hl (NoDup_list_remove _ _ Hnd)) as [? Hmem].
        split; [done|]. intros x.
        rewrite Hmem, elem_of_list_remove, elem_of_cons by done.
        split.
        -- intros [[? ?] ?]. split; [done|]. intros [->|?]; [done|auto].
        -- intros [? Hx]. split; [split; [done|]|auto].
           intros ->. rewrite Hx in Hacc; [done|by left].
Qed.

(** The working set of [_backup]: the names of the listing that pass the
    check, each once; the directory is not touched to get it. *)
Lemma targets_spec w user d :
  match res (_get_user_repositories w user d) with
  | Raise e =>
      targets w user d = Out (Raise e) d (evs (_get_user_repositories w user d))
  | Ok raw =>
      ∃ l t, targets w user d = Out (Ok l) d t ∧
             forallb is_listing_call t = true ∧
             NoDup l ∧
             ∀ x, x ∈ l ↔ x ∈ raw ∧ name_accepted x = true
  end.
Proof.
  destruct (listing_frame w w user d d) as [Heq Hcalls]; [done|].
  destruct (res (_get_user_repositories w user d)) as [raw|e] eqn:Hres.
  - pose proof (listing_names w user d raw Hres) as Hnd.
    assert (NoDup (sorted lower raw)) as Hnd' by by rewrite sorted_perm.
    destruct (reject_invalid_spec (sorted lower raw) (sorted lower raw) d)
      as (l & t & Hrun & Hcalls' & Hl).
    destruct (Hl Hnd') as [Hndl Hmem].
    unfold targets. unfold bind at 1. rewrite Heq. cbn [res dir evs].
    destruct (sorted lower raw) as [|x0 l0] eqn:Hsorted.
    + exists [], (evs (_get_user_repositories w user d) ++
                  [Log INFO "User %s doesn't have any repositories." [user]]).
      split; [done|]. split; [by rewrite forallb_app, Hcalls|].
      split; [constructor|]. intros x.
      assert (raw = []) as -> by (apply Permutation_nil_r; by rewrite <- Hsorted, sorted_perm).
      set_solver.
    + eexists l, _. split; [|split; [|split]].
      * run_monad. rewrite Hrun. cbn [res dir evs]. reflexivity.
      * rewrite forallb_app, Hcalls. cbn. done.
      * done.
      * intros x. rewrite Hmem, <- Hsorted. rewrite sorted_perm. naive_solver.
  - unfold targets. unfold bind at 1. by rewrite Heq.
Qed.

(** ** The cleanup *)

Lemma removals_app t1 t2 : removals (t1 ++ t2) = removals t1 ++ removals t2.
Proof. unfold removals. by rewrite bind_app. Qed.


(** One removal: never an exception; the entry is gone, or it stays and
    the failure is logged; no other entry changes. *)
Lemma _rm_path_spec w path d :
  is_Some (d !! path) →
  let o := _rm_path w path d in
  res o = Ok tt ∧
  (∃ ok t, evs o = Remove path ok :: t ∧ forallb is_log t = true ∧
           (if ok then dir o = delete path d ∧ t = []
            else dir o = d ∧ rm_failure_log ∈ t)).
Proof.
  intros [n Hn]. cbv zeta. rewrite _rm_path_cases, Hn.
  destruct n as [| |live].
  - destruct (rmtree_errors w path) as [|k].
    + split; [done|]. by exists true, [].
    + split; [done|]. exists false, (replicate (S k) rm_failure_log).
      split; [done|]. split; [by apply forallb_Forall, Forall_replicate|].
      split; [done|]. cbn. left.
  - destruct (unlink_err w path).
    + split; [done|]. exists false, [rm_failure_log]. repeat split; try done. left.
    + split; [done|]. by exists true, [].
  - destruct (unlink_err w path).
    + split; [done|]. exists false, [rm_failure_log]. repeat split; try done. left.
    + split; [done|]. by exists true, [].
Qed.

Lemma _rm_path_ok w path d : res (_rm_path w path d) = Ok tt.
Proof.
  rewrite _rm_path_cases. destruct (d !! path) as [[]|]; try done.
  - by destruct (rmtree_errors w path).
  - by destruct (unlink_err w path).
  - by destruct (unlink_err w path).
Qed.

Lemma remove_entry_eq w bd x d :
  remove_entry w bd x d =
  Out (res (_rm_path w x d)) (dir (_rm_path w x d)) (removal_log bd x :: evs (_rm_path w x d)).
Proof.
  unfold remove_entry, removal_log. cbv zeta.
  destruct (starts_with_dot x); run_monad; by rewrite prepend_eq.
Qed.

(** The loop of [_cleanup] over candidates that are entries: it runs to the
    end whatever fails, calls the removal once on each candidate, and
    touches nothing else. *)
Lemma cleanup_loop w bd cands d :
  NoDup cands → (∀ k, k ∈ cands → is_Some (d !! k)) →
  let o := for_ cands (remove_entry w bd) d in
  res o = Ok tt ∧
  removals (evs o) = cands ∧
  forallb (λ c, is_log c || is_remove c) (evs o) = true ∧
  (∀ k, k ∉ cands → dir o !! k = d !! k) ∧
  (∀ k, dir o !! k = None ∨ dir o !! k = d !! k) ∧
  (forallb (λ c, negb (failed c)) (evs o) = true → ∀ k, k ∈ cands → dir o !! k = None) ∧
  (∀ k, Remove k false ∈ evs o → rm_failure_log ∈ evs o).
Proof.
  intros Hnd Hin.
  apply (for_invariant (remove_entry w bd)
    (λ done d' t,
       removals t = done ∧
       forallb (λ c, is_log c || is_remove c) t = true ∧
       (∀ k, k ∉ done → d' !! k = d !! k) ∧
       (∀ k, d' !! k = None ∨ d' !! k = d !! k) ∧
       (forallb (λ c, negb (failed c)) t = true → ∀ k, k ∈ done → d' !! k = None) ∧
       (∀ k, Remove k false ∈ t → rm_failure_log ∈ t))).
  - intros x d'. by rewrite remove_entry_eq, _rm_path_ok.
  - repeat split; try done.
    + intros k. by right.
    + intros _ k Hk. by apply elem_of_nil in Hk.
    + intros k Hk. by apply elem_of_nil in Hk.
  - intros done x rest d' t Hl (Hrem & Hcalls & Hout & Hmono & Hgone & Hlogged).
    assert (x ∉ done) as Hx.
    { rewrite Hl in Hnd. apply NoDup_app in Hnd as (_ & Hd & _).
      intros Hxd. apply (Hd x Hxd). left. }
    assert (is_Some (d' !! x)) as Hsome.
    { rewrite Hout by done. apply Hin. rewrite Hl. set_solver. }
    rewrite remove_entry_eq. cbn [dir evs].
    destruct (_rm_path_spec w x d' Hsome) as (_ & ok & t' & -> & Hlogs & Hcase).
    assert (forallb (λ c, is_log c || is_remove c) t' = true) as Hlogs'.
    { apply forallb_Forall. apply forallb_Forall in Hlogs.
      eapply Forall_impl; [exact Hlogs|]. intros c Hc. by rewrite Hc. }
    assert (removal_log bd x :: Remove x ok :: t' =
            [removal_log bd x; Remove x ok] ++ t') as -> by done.
    assert (removals t' = []) as Hrt'.
    { clear -Hlogs. induction t' as [|c t' IH]; [done|].
      cbn in Hlogs. apply andb_prop in Hlogs as [Hc Ht].
      change (c :: t') with ([c] ++ t'). rewrite removals_app, IH by done.
      by destruct c. }
    assert (removals [removal_log bd x; Remove x ok] = [x]) as Hr2.
    { unfold removal_log. by destruct (starts_with_dot x). }
    assert (is_log (removal_log bd x) = true) as Hrl.
    { unfold removal_log. by destruct (starts_with_dot x). }
    split; [|split; [|split; [|split; [|split]]]].
    + by rewrite !removals_app, Hrem, Hr2, Hrt', app_nil_r.
    + rewrite !forallb_app, Hcalls, Hlogs'. cbn. by rewrite Hrl.
    + intros k Hk. rewrite not_elem_of_app, list_elem_of_singleton in Hk.
      destruct Hk as [Hkd Hkx]. rewrite <- Hout by done.
      destruct ok; destruct Hcase as [-> _]; [|done]. by rewrite lookup_delete_ne.
    + intros k. destruct ok; destruct Hcase as [-> _]; [|done].
      destruct (decide (x = k)) as [->|]; [left; apply lookup_delete_eq|].
      by rewrite lookup_delete_ne.
    + rewrite !forallb_app. intros [Ht [Hok2 _]%andb_prop]%andb_prop k Hk.
      cbn in Hok2. rewrite andb_true_r in Hok2.
      destruct ok; [|by destruct (removal_log bd x)]. destruct Hcase as [-> _].
      destruct (decide (x = k)) as [->|]; [apply lookup_delete_eq|].
      rewrite lookup_delete_ne by done. apply Hgone; [done|]. set_solver.
    + intros k Hk. rewrite !elem_of_app in Hk. rewrite !elem_of_app.
      destruct Hk as [Hk|[Hk|Hk]].
      * left. eauto.
      * destruct ok; [|destruct Hcase as [_ ?]; by right; right].
        apply elem_of_cons in Hk as [Hk|Hk].
        { exfalso. revert Hk. unfold removal_log. by destruct (starts_with_dot x). }
        apply list_elem_of_singleton in Hk. done.
      * apply forallb_Forall in Hlogs. rewrite Forall_forall in Hlogs.
        by specialize (Hlogs _ Hk).
Qed.

Lemma listdir_dom (d : gmap string node) :
  list_to_set (map_to_list d).*1 =@{gset string} dom d.
Proof. apply leibniz_equiv. symmetry. apply dom_alt. Qed.

Lemma _cleanup_listed w bd repositories d dev ino :
  backup_dir_status w = DirOk dev ino →
  _cleanup w bd repositories d =
  let o := for_ (elements (dom d ∖ list_to_set repositories ∖ {[_LOCK_FILE_NAME]}))
                (remove_entry w bd) d in
  Out (res o) (dir o) (Listdir :: evs o).
Proof.
  intros Hst. unfold _cleanup, os_listdir, cleanup_files. rewrite Hst. run_monad.
  by rewrite listdir_dom, prepend_eq.
Qed.

Lemma _cleanup_unlisted w bd repositories d :
  (∀ dev ino, backup_dir_status w ≠ DirOk dev ino) →
  ∃ msg, _cleanup w bd repositories d =
         Out (Raise (Error (format "Unable to list '{}' directory: {}." [bd; msg]))) d [Listdir].
Proof.
  intros Hst. unfold _cleanup, os_listdir.
  destruct (backup_dir_status w) as [dev ino| | |dev ino]; run_monad;
    [by destruct (Hst dev ino)|by eexists..].
Qed.

(** [_cleanup] on a directory that can be listed. *)
Lemma _cleanup_spec w bd repositories d dev ino :
  backup_dir_status w = DirOk dev ino →
  let o := _cleanup w bd repositories d in
  let gone := dom d ∖ list_to_set repositories ∖ {[_LOCK_FILE_NAME]} in
  res o = Ok tt ∧
  (∃ t, evs o = Listdir :: t ∧ removals t = elements gone ∧
        forallb (λ c, is_log c || is_remove c) t = true) ∧
  (∀ k, k ∉ gone → dir o !! k = d !! k) ∧
  (∀ k, dir o !! k = None ∨ dir o !! k = d !! k) ∧
  (forallb (λ c, negb (failed c)) (evs o) = true → ∀ k, k ∈ gone → dir o !! k = None) ∧
  (∀ k, Remove k false ∈ evs o → rm_failure_log ∈ evs o).
Proof.
  intros Hst. cbv zeta. rewrite (_cleanup_listed _ _ _ _ _ _ Hst). cbv zeta. cbn [res dir evs].
  set (gone := dom d ∖ list_to_set repositories ∖ {[_LOCK_FILE_NAME]}).
  destruct (cleanup_loop w bd (elements gone) d) as (Hres & Hrem & Hcalls & Hout & Hmono & Hgone & Hlog).
  { apply NoDup_elements. }
  { intros k Hk. apply elem_of_elements in Hk. apply elem_of_dom. set_solver. }
  split; [done|]. split; [by eexists|].
  split; [intros k Hk; apply Hout; by rewrite elem_of_elements|].
  split; [done|]. split.
  - cbn. intros Hok k Hk. apply Hgone; [done|]. by apply elem_of_elements.
  - intros k [Hk|Hk]%elem_of_cons; [done|]. right. eauto.
Qed.

(** ** Mirroring *)

Lemma _mirror_repo_ok w name url bd d : res (_mirror_repo w name url bd d) = Ok tt.
Proof.
  rewrite _mirror_repo_cases. cbv zeta.
  destruct (exists_at w d name); [by destruct (git w (Fetch name))|].
  destruct (git w (CloneMirror _ _)); [done|].
  destruct (git w (GcAggressive _)); [done|].
  by destruct (rename_err w _ _).
Qed.


(** ** The loop over the repositories *)

Ltac mirror_cases w name url bd d :=
  rewrite (_mirror_repo_cases w name url bd d); cbv zeta;
  destruct (exists_at w d name) eqn:?;
  [ destruct (git w (Fetch name)) eqn:?
  | destruct (git w (CloneMirror url ("." +:+ name))) eqn:?;
    [ | destruct (git w (GcAggressive ("." +:+ name))) eqn:?;
        [ | destruct (rename_err w ("." +:+ name) name) eqn:? ] ] ];
  cbn [res dir evs].

Ltac elem_here :=
  repeat first [ apply list_elem_of_here | apply list_elem_of_further ].

(** What one [_mirror_repo] calls, whichever branch it takes: calls for its
    own repository, among them a fetch or a clone, and an error line
    whenever one of them failed. *)
Lemma mirror_step_calls w user name bd d :
  let o := _mirror_repo w name (repo_url user name) bd d in
  Forall (mirrors user name) (evs o) ∧
  (∃ ok, Git (Fetch name) ok ∈ evs o ∨
         Git (CloneMirror (repo_url user name) ("." +:+ name)) ok ∈ evs o) ∧
  (existsb failed (evs o) = true → existsb is_error_log (evs o) = true).
Proof.
  cbv zeta. mirror_cases w name (repo_url user name) bd d;
    (split; [repeat constructor|split; [|done]]).
  - exists false. left. elem_here.
  - exists true. left. elem_here.
  - exists false. right. elem_here.
  - exists true. right. elem_here.
  - exists true. right. elem_here.
  - exists true. right. elem_here.
Qed.


Lemma path_exists_insert_eq d k :
  path_exists (<[k := Dir]> d) k = true.
Proof. unfold path_exists. by rewrite lookup_insert_eq. Qed.

Lemma hidden_entry_name name :
  is_entry_name name = true → is_entry_name ("." +:+ name) = true.
Proof.
  unfold is_entry_name. change ("." +:+ name) with (String "." name).
  rewrite !andb_true_iff, !bool_decide_eq_true. cbn [contains_char].
  intros [[[Hs Hne] Hdot] Hdots]. repeat split; try done.
  - intros [= ->]. done.
  - intros [= ->]. done.
Qed.

Lemma target_name_parts n :
  target_name n = true → name_accepted n = true ∧ is_entry_name n = true.
Proof. unfold target_name. by rewrite andb_true_iff. Qed.

(** Every Repository Name of the data model is a target name. *)
Lemma valid_name_target n : spec_valid_name n = true → target_name n = true.
Proof.
  intros Hv. unfold target_name. rewrite (valid_name_accepted n Hv). cbn [andb].
  destruct n as [|c rest]; [done|]. cbn -[Re.class_mem] in Hv.
  apply andb_prop in Hv as [Hc Hrest].
  assert (contains_char "/" rest = false) as Hsep.
  { clear Hc. induction rest as [|c' rest IH]; [done|].
    cbn -[Re.class_mem] in Hrest. apply andb_prop in Hrest as [Hc' Hrest].
    cbn [contains_char]. rewrite (IH Hrest), orb_false_r.
    destruct c' as [[] [] [] [] [] [] [] []]; try done. }
  unfold is_entry_name. cbn [contains_char]. rewrite Hsep, orb_false_r.
  rewrite !andb_true_iff, !bool_decide_eq_true, negb_true_iff.
  repeat split; try done.
  - destruct c as [[] [] [] [] [] [] [] []]; try done.
  - intros [= -> ->]. done.
  - intros [= -> ->]. done.
Qed.

Lemma exists_at_entry w d name :
  is_entry_name name = true → exists_at w d name = path_exists d name.
Proof. intros He. unfold exists_at. by rewrite He. Qed.

Lemma git_effect_clone_entry w url path ok d :
  is_entry_name path = true →
  git_effect w (CloneMirror url path) ok d =
  if ok || clone_leftover w path then <[path := Dir]> d else d.
Proof. intros He. cbn. rewrite He. by destruct ok. Qed.

Lemma git_effect_clone_ne w url path ok d k :
  is_entry_name path = true →
  k ≠ path → git_effect w (CloneMirror url path) ok d !! k = d !! k.
Proof.
  intros He Hk. rewrite git_effect_clone_entry by done.
  destruct (ok || clone_leftover w path); rewrite ?lookup_insert_ne; done.
Qed.

(** The directory after clone, gc and rename of an entry name. *)
Lemma published_entry w url name d :
  is_entry_name name = true →
  rename_effect w ("." +:+ name) name (git_effect w (CloneMirror url ("." +:+ name)) true d) =
  <[name := Dir]> (delete ("." +:+ name) (<["." +:+ name := Dir]> d)).
Proof.
  intros He. pose proof (hidden_entry_name name He) as Ht.
  rewrite git_effect_clone_entry by done. unfold rename_effect. cbn [orb].
  by rewrite He, Ht, lookup_insert_eq.
Qed.

(** One [_mirror_repo] changes nothing but its temporary path and its own
    entry. *)
Lemma mirror_step_frame w name url bd d k :
  is_entry_name name = true →
  k ≠ name → k ≠ "." +:+ name →
  dir (_mirror_repo w name url bd d) !! k = d !! k.
Proof.
  intros He Hk Hk'. pose proof (hidden_entry_name name He) as Ht.
  mirror_cases w name url bd d; try done; rewrite ?published_entry by done.
  - by apply git_effect_clone_ne.
  - by apply git_effect_clone_ne.
  - by apply git_effect_clone_ne.
  - by rewrite lookup_insert_ne, lookup_delete_ne, lookup_insert_ne.
Qed.

(** The mirrors that exist stay, and are not cloned again. *)
Lemma mirror_step_keeps w name url bd d :
  target_name name = true →
  let o := _mirror_repo w name url bd d in
  (∀ m, name_accepted m = true → path_exists d m = true → path_exists (dir o) m = true) ∧
  (∀ n, n ≠ name → Forall (λ c, clones n c = false ∧ publishes n c = false) (evs o)) ∧
  (path_exists d name = true →
   dir o = d ∧ existsb (fetches name) (evs o) = true ∧
   Forall (λ c, clones name c = false ∧ publishes name c = false) (evs o) ∧
   forallb (λ c, is_log c || is_fetch c) (evs o) = true).
Proof.
  intros [Hacc He]%target_name_parts. cbv zeta. split; [|split].
  - intros m Hm Hex. destruct (decide (m = name)) as [->|Hne].
    + assert (exists_at w d name = true) as Hex' by (by rewrite exists_at_entry).
      mirror_cases w name url bd d; first [done | congruence].
    + unfold path_exists. rewrite mirror_step_frame; [done..|].
      by apply accepted_not_hidden.
  - intros n Hn.
    assert ("." +:+ name ≠ "." +:+ n) as Hn' by (by intros ?%hidden_inj).
    mirror_cases w name url bd d; repeat constructor; cbn;
      by rewrite ?bool_decide_eq_false.
  - intros Hex. rewrite <- (exists_at_entry w) in Hex by done.
    rewrite _mirror_repo_cases. cbv zeta. rewrite Hex.
    destruct (git w (Fetch name)); cbn [res dir evs];
      (split; [done|]; split; [cbn; by rewrite bool_decide_eq_true_2|];
       split; [repeat constructor|done]).
Qed.

(** When nothing failed, the mirror is there afterwards and the temporary
    path is not. *)
Lemma mirror_step_success w name url bd d :
  is_entry_name name = true →
  let o := _mirror_repo w name url bd d in
  forallb (λ c, negb (failed c)) (evs o) = true →
  path_exists (dir o) name = true ∧
  (dir o = d ∨ dir o !! ("." +:+ name) = None).
Proof.
  intros He. cbv zeta. pose proof (hidden_ne name) as Hne.
  mirror_cases w name url bd d; try done.
  - intros _. rewrite <- (exists_at_entry w) by done. split; [done|by left].
  - intros _. rewrite published_entry by done.
    split; [apply path_exists_insert_eq|]. right.
    rewrite lookup_insert_ne by done. apply lookup_delete_eq.
Qed.

Lemma existsb_app_true {X} (f : X → bool) l1 l2 :
  existsb f (l1 ++ l2) = true ↔ existsb f l1 = true ∨ existsb f l2 = true.
Proof. by rewrite existsb_app, orb_true_iff. Qed.

(** The loop visits every repository, whatever fails on the way. *)
Lemma mirror_all_calls w user bd l d :
  let o := mirror_all w user bd l d in
  res o = Ok tt ∧
  Forall (λ c, ∃ n, n ∈ l ∧ mirrors user n c) (evs o) ∧
  (∀ n, n ∈ l → ∃ ok, Git (Fetch n) ok ∈ evs o ∨
                      Git (CloneMirror (repo_url user n) ("." +:+ n)) ok ∈ evs o) ∧
  (existsb failed (evs o) = true → existsb is_error_log (evs o) = true).
Proof.
  unfold mirror_all.
  apply (for_invariant (λ name, _mirror_repo w name (repo_url user name) bd)
    (λ done d' t,
       Forall (λ c, ∃ n, n ∈ l ∧ mirrors user n c) t ∧
       (∀ n, n ∈ done → ∃ ok, Git (Fetch n) ok ∈ t ∨
                              Git (CloneMirror (repo_url user n) ("." +:+ n)) ok ∈ t) ∧
       (existsb failed t = true → existsb is_error_log t = true))).
  - intros x d'. apply _mirror_repo_ok.
  - split; [constructor|]. split; [|done]. intros n Hn. by apply elem_of_nil in Hn.
  - intros done x rest d' t Hl (Hcalls & Hvisit & Hlog).
    destruct (mirror_step_calls w user x bd d') as (Hc & [ok Hv] & Hf).
    split; [|split].
    + apply Forall_app. split; [done|].
      eapply Forall_impl; [exact Hc|]. intros c Hm. exists x. split; [|done].
      rewrite Hl. set_solver.
    + intros n [Hn|Hn]%elem_of_app.
      * destruct (Hvisit n Hn) as [ok' Hok']. exists ok'. rewrite !elem_of_app. tauto.
      * apply list_elem_of_singleton in Hn as ->. exists ok. rewrite !elem_of_app. tauto.
    + rewrite !existsb_app_true. tauto.
Qed.

(** With checked names, the mirrors that exist are fetched and never
    cloned again. *)
Lemma mirror_all_keeps w user bd l d :
  Forall (λ n, target_name n = true) l →
  let o := mirror_all w user bd l d in
  (∀ m, name_accepted m = true → path_exists d m = true → path_exists (dir o) m = true) ∧
  (∀ n, n ∈ l → path_exists d n = true →
        existsb (fetches n) (evs o) = true ∧
        Forall (λ c, clones n c = false ∧ publishes n c = false) (evs o)).
Proof.
  intros Hacc. rewrite Forall_forall in Hacc. unfold mirror_all.
  destruct (for_invariant (λ name, _mirror_repo w name (repo_url user name) bd)
    (λ done d' t,
       (∀ m, name_accepted m = true → path_exists d m = true → path_exists d' m = true) ∧
       (∀ n, name_accepted n = true → path_exists d n = true →
             Forall (λ c, clones n c = false ∧ publishes n c = false) t) ∧
       (∀ n, n ∈ done → path_exists d n = true → existsb (fetches n) t = true)) l d)
    as (_ & Hmono & Hnoclone & Hfetch).
  - intros x d'. apply _mirror_repo_ok.
  - split; [done|]. split; [constructor|]. intros n Hn. by apply elem_of_nil in Hn.
  - intros done x rest d' t Hl (Hmono & Hnoclone & Hfetch).
    assert (target_name x = true) as Hx by (apply Hacc; rewrite Hl; set_solver).
    destruct (target_name_parts x Hx) as [Hax _].
    destruct (mirror_step_keeps w x (repo_url user x) bd d' Hx) as (Hk1 & Hk2 & Hk3).
    split; [|split].
    + intros m Hm Hex. apply Hk1; [done|]. by apply Hmono.
    + intros n Hn Hex. apply Forall_app. split; [by apply Hnoclone|].
      destruct (decide (n = x)) as [->|Hne]; [|by apply Hk2].
      apply Hk3. by apply Hmono.
    + intros n [Hn|Hn]%elem_of_app Hex; rewrite existsb_app_true.
      * left. by apply Hfetch.
      * apply list_elem_of_singleton in Hn as ->. right. apply Hk3. by apply Hmono.
  - split; [done|]. intros n Hn Hex. split; [by apply Hfetch|].
    apply Hnoclone; [|done]. by apply target_name_parts, Hacc.
Qed.

(** When nothing failed, every repository has its mirror afterwards, and
    no temporary path is left. *)
Lemma mirror_all_success w user bd l d :
  Forall (λ n, target_name n = true) l →
  let o := mirror_all w user bd l d in
  forallb (λ c, negb (failed c)) (evs o) = true →
  (∀ n, n ∈ l → path_exists (dir o) n = true) ∧
  (∀ k, k ∉ l → dir o !! k = None ∨ dir o !! k = d !! k).
Proof.
  intros Hacc. rewrite Forall_forall in Hacc. unfold mirror_all.
  apply (for_invariant (λ name, _mirror_repo w name (repo_url user name) bd)
    (λ done d' t,
       forallb (λ c, negb (failed c)) t = true →
       (∀ n, n ∈ done → path_exists d' n = true) ∧
       (∀ k, k ∉ l → d' !! k = None ∨ d' !! k = d !! k))).
  - intros x d'. apply _mirror_repo_ok.
  - intros _. split; [|by right]. intros n Hn. by apply elem_of_nil in Hn.
  - intros done x rest d' t Hl IH. rewrite forallb_app, andb_true_iff. intros [Ht Hx].
    destruct (IH Ht) as [Hdone Hout].
    assert (x ∈ l) as Hxl by (rewrite Hl; set_solver).
    destruct (target_name_parts x (Hacc x Hxl)) as [Hax Hex'].
    destruct (mirror_step_success w x (repo_url user x) bd d' Hex' Hx) as [Hex Htemp].
    split.
    + intros n [Hn|Hn]%elem_of_app.
      * assert (name_accepted n = true) as Hn'.
        { apply target_name_parts, Hacc. rewrite Hl. set_solver. }
        by apply (mirror_step_keeps w x (repo_url user x) bd d' (Hacc x Hxl)), Hdone.
      * by apply list_elem_of_singleton in Hn as ->.
    + intros k Hk. destruct (decide (k = "." +:+ x)) as [->|Hkt].
      * destruct Htemp as [-> | ->]; [by apply Hout|by left].
      * rewrite mirror_step_frame; [by apply Hout|done| |done]. by intros ->.
Qed.

Lemma reconcile_eq w user bd l d dev ino :
  backup_dir_status w = DirOk dev ino →
  reconcile w user bd l d =
  Out (res (mirror_all w user bd l (dir (_cleanup w bd l d))))
      (dir (mirror_all w user bd l (dir (_cleanup w bd l d))))
      (evs (_cleanup w bd l d) ++ evs (mirror_all w user bd l (dir (_cleanup w bd l d)))).
Proof.
  intros Hst. unfold reconcile. rewrite bind_eq.
  destruct (_cleanup_spec w bd l d dev ino Hst) as (-> & _). by rewrite prepend_eq.
Qed.

(** When every repository has its mirror already, the loop only fetches. *)
Lemma mirror_all_present w user bd l d :
  Forall (λ n, target_name n = true) l →
  (∀ n, n ∈ l → path_exists d n = true) →
  let o := mirror_all w user bd l d in
  dir o = d ∧ forallb (λ c, is_log c || is_fetch c) (evs o) = true.
Proof.
  intros Hacc Hall. rewrite Forall_forall in Hacc. unfold mirror_all.
  apply (for_invariant (λ name, _mirror_repo w name (repo_url user name) bd)
    (λ done d' t, d' = d ∧ forallb (λ c, is_log c || is_fetch c) t = true)).
  - intros x d'. apply _mirror_repo_ok.
  - done.
  - intros done x rest d' t Hl [-> Ht].
    assert (x ∈ l) as Hx by (rewrite Hl; set_solver).
    destruct (mirror_step_keeps w x (repo_url user x) bd d (Hacc x Hx)) as (_ & _ & Hk).
    destruct (Hk (Hall x Hx)) as (-> & _ & _ & Hf).
    split; [done|]. by rewrite forallb_app, Ht, Hf.
Qed.

(** ** Reading the traces of the two phases *)

Lemma existsb_false_Forall {X} (f : X → bool) (l : list X) :
  existsb f l = false ↔ Forall (λ x, f x = false) l.
Proof.
  induction l as [|x l IH]; cbn; [by split; [constructor|]|].
  rewrite orb_false_iff, IH, Forall_cons. done.
Qed.

Lemma removals_cons c t :
  removals (c :: t) = match c with Remove path _ => [path] | _ => [] end ++ removals t.
Proof. done. Qed.

Lemma existsb_removes n t : existsb (removes n) t = true ↔ n ∈ removals t.
Proof.
  induction t as [|c t IH].
  - split; [done|]. intros H. by apply elem_of_nil in H.
  - rewrite removals_cons, elem_of_app. cbn [existsb]. rewrite orb_true_iff, IH.
    destruct c; cbn; rewrite ?elem_of_nil, ?list_elem_of_singleton, ?bool_decide_eq_true;
      naive_solver.
Qed.

Lemma removals_mirror_calls user (l : list string) t :
  Forall (λ c, ∃ n, n ∈ l ∧ mirrors user n c) t → removals t = [].
Proof.
  induction 1 as [|c t (n & _ & Hc) _ IH]; [done|].
  change (c :: t) with ([c] ++ t). rewrite removals_app, IH. by destruct c.
Qed.

(** The calls of the cleanup are no calls of the mirroring. *)
Lemma cleanup_calls_mirror_nothing t n :
  forallb (λ c, is_log c || is_remove c) t = true →
  existsb (fetches n) t = false ∧ existsb (clones n) t = false ∧
  existsb (publishes n) t = false.
Proof.
  intros Ht. apply forallb_Forall in Ht. rewrite !existsb_false_Forall.
  repeat split; (eapply Forall_impl; [exact Ht|]); by intros [].
Qed.

(** The calls of the listing are neither. *)
Lemma listing_calls_touch_nothing t n :
  forallb is_listing_call t = true →
  existsb (fetches n) t = false ∧ existsb (clones n) t = false ∧
  existsb (publishes n) t = false ∧ existsb (removes n) t = false ∧
  existsb is_mutation t = false ∧ removals t = [].
Proof.
  intros Ht. apply forallb_Forall in Ht.
  assert (removals t = []) as Hr.
  { induction Ht as [|c t Hc _ IH]; [done|].
    change (c :: t) with ([c] ++ t). rewrite removals_app, IH. by destruct c. }
  rewrite !existsb_false_Forall.
  repeat split; try done; (eapply Forall_impl; [exact Ht|]); by intros [].
Qed.

(** The calls for one repository are none for another. *)
Lemma mirrors_other user n' n c :
  mirrors user n' c → n ≠ n' →
  fetches n c = false ∧ clones n c = false ∧ publishes n c = false.
Proof.
  intros Hc Hne. destruct c as [| | |[]| | |]; cbn in *; try done.
  - subst. by rewrite bool_decide_eq_false_2.
  - destruct Hc as [_ ->]. rewrite bool_decide_eq_false_2; [done|].
    by intros ?%hidden_inj.
  - destruct Hc as [_ ->]. by rewrite bool_decide_eq_false_2.
Qed.

(** ** The reconciler *)




(** ** The whole of [_backup] *)

Lemma targets_out w user d :
  dir (targets w user d) = d ∧
  forallb is_listing_call (evs (targets w user d)) = true ∧
  match res (_get_user_repositories w user d) with
  | Raise e => res (targets w user d) = Raise e
  | Ok raw =>
      ∃ l, res (targets w user d) = Ok l ∧ NoDup l ∧
           ∀ x, x ∈ l ↔ x ∈ raw ∧ name_accepted x = true
  end.
Proof.
  pose proof (targets_spec w user d) as H.
  destruct (listing_frame w w user d d) as [_ Hcalls]; [done|].
  destruct (res (_get_user_repositories w user d)) as [raw|e].
  - destruct H as (l & t & -> & Ht & Hnd & Hmem). repeat split; try done. by exists l.
  - by rewrite H.
Qed.

Lemma targets_accepted w user d l :
  res (targets w user d) = Ok l → Forall (λ n, name_accepted n = true) l.
Proof.
  intros Hl. destruct (targets_out w user d) as (_ & _ & H).
  destruct (res (_get_user_repositories w user d)) as [raw|e].
  - destruct H as (l' & Hl' & _ & Hmem). rewrite Hl in Hl'. injection Hl' as <-.
    apply Forall_forall. intros x Hx. by apply Hmem.
  - congruence.
Qed.

(** The working set depends on the server alone. *)
Lemma targets_frame w w' user d d' :
  (∀ p, server w p = server w' p) →
  res (targets w user d) = res (targets w' user d') ∧
  evs (targets w user d) = evs (targets w' user d').
Proof.
  intros Hs. destruct (listing_frame w w' user d d' Hs) as [Heq _].
  unfold targets. rewrite !bind_eq, Heq. cbn [res dir evs].
  destruct (res (_get_user_repositories w' user d')) as [raw|e]; [|done].
  rewrite !prepend_eq. cbn [res dir evs].
  destruct (sorted lower raw) as [|x l] eqn:Hsorted; [done|].
  rewrite !bind_eq. cbn [log emit res dir evs]. rewrite !prepend_eq.
  destruct (reject_invalid_spec (x :: l) (x :: l) d) as (l' & t & Hrun & _).
  by rewrite !Hrun.
Qed.

Lemma _backup_eq w user bd d :
  _backup w user bd d =
  match res (targets w user d) with
  | Ok l => prepend (evs (targets w user d)) (reconcile w user bd l d)
  | Raise e => Out (Raise e) d (evs (targets w user d))
  end.
Proof.
  unfold _backup. rewrite bind_eq.
  destruct (targets_out w user d) as (-> & _). done.
Qed.

(** C2, counterexample.  The remote repository [.github] fails the name
    check; the directory has an entry of that name; the run removes it. *)
Lemma C2_rejected_name_is_deleted :
  let w := calm_world [[".github"; "alpha"]] in
  let d : gmap string node := <[".github" := Dir]> (<["alpha" := Dir]> ∅) in
  let o := _backup w "me" "/backup" d in
  name_accepted ".github" = false ∧
  d !! ".github" = Some Dir ∧
  res o = Ok tt ∧
  Remove ".github" true ∈ evs o ∧
  dir o !! ".github" = None.
Proof.
  cbv zeta. repeat split; try (vm_compute; reflexivity).
  vm_compute. elem_here.
Qed.

Lemma reconcile_unlisted w user bd l d :
  (∀ dev ino, backup_dir_status w ≠ DirOk dev ino) →
  ∃ msg, reconcile w user bd l d =
         Out (Raise (Error (format "Unable to list '{}' directory: {}." [bd; msg]))) d [Listdir].
Proof.
  intros Hst. destruct (_cleanup_unlisted w bd l d Hst) as [msg Hc].
  exists msg. unfold reconcile. by rewrite bind_eq, Hc.
Qed.

Lemma status_cases w :
  (∃ dev ino, backup_dir_status w = DirOk dev ino) ∨
  (∀ dev ino, backup_dir_status w ≠ DirOk dev ino).
Proof. destruct (backup_dir_status w); eauto. Qed.

(** A name that is no target is not mirrored. *)
Lemma reconcile_mirrors_targets_only w user bd l d n :
  n ∉ l →
  existsb (fetches n) (evs (reconcile w user bd l d)) = false ∧
  existsb (clones n) (evs (reconcile w user bd l d)) = false ∧
  existsb (publishes n) (evs (reconcile w user bd l d)) = false.
Proof.
  intros Hn. destruct (status_cases w) as [(dev & ino & Hst)|Hst].
  - rewrite (reconcile_eq _ _ _ _ _ _ _ Hst). cbn [evs].
    destruct (_cleanup_spec w bd l d dev ino Hst) as (_ & (t & -> & _ & Hcalls) & _).
    destruct (cleanup_calls_mirror_nothing t n Hcalls) as (Hc0 & Hc1 & Hc2).
    destruct (mirror_all_calls w user bd l (dir (_cleanup w bd l d))) as (_ & Hm & _).
    assert (Forall (λ c, fetches n c = false ∧ clones n c = false ∧ publishes n c = false)
                   (evs (mirror_all w user bd l (dir (_cleanup w bd l d))))) as Hno.
    { eapply Forall_impl; [exact Hm|]. intros c (n' & Hn' & Hc).
      apply (mirrors_other user n'); [done|]. by intros ->. }
    rewrite !existsb_app. cbn [existsb fetches clones publishes]. rewrite Hc0, Hc1, Hc2. cbn.
    rewrite !existsb_false_Forall.
    repeat split; (eapply Forall_impl; [exact Hno|]); naive_solver.
  - destruct (reconcile_unlisted w user bd l d Hst) as [msg ->]. done.
Qed.

(** C2 (amended).  For every remote name that fails the name check, the
    run never mirrors it: it does not fetch into an entry of that name,
    does not clone into its temporary path, renames nothing onto it.  But
    the entry of that name, when the directory has one, is not spared: it
    is no target, so unless it is the lock file the run sets out to remove
    it like every other entry outside the target list. *)
Theorem C2_rejected_name_not_mirrored_not_spared w user bd d raw n :
  res (_get_user_repositories w user d) = Ok raw →
  n ∈ raw →
  name_accepted n = false →
  let o := _backup w user bd d in
  existsb (fetches n) (evs o) = false ∧
  existsb (clones n) (evs o) = false ∧
  existsb (publishes n) (evs o) = false ∧
  (∀ dev ino, backup_dir_status w = DirOk dev ino →
     is_Some (d !! n) → n ≠ _LOCK_FILE_NAME →
     existsb (removes n) (evs o) = true).
Proof.
  intros Hraw Hn Hrej. cbv zeta. rewrite _backup_eq.
  destruct (targets_out w user d) as (_ & Hcalls & Hl). rewrite Hraw in Hl.
  destruct Hl as (l & -> & _ & Hmem). rewrite prepend_eq. cbn [evs].
  assert (n ∉ l) as Hnl.
  { intros [_ Hacc]%Hmem. congruence. }
  destruct (listing_calls_touch_nothing _ n Hcalls) as (Hf & Hc & Hp & _).
  destruct (reconcile_mirrors_targets_only w user bd l d n Hnl) as (Hf' & Hc' & Hp').
  rewrite !existsb_app, Hf, Hc, Hp, Hf', Hc', Hp'.
  repeat split; try done.
  intros dev ino Hst Hsome Hlock. apply orb_true_iff. right.
  rewrite (reconcile_eq _ _ _ _ _ _ _ Hst). cbn [evs].
  destruct (_cleanup_spec w bd l d dev ino Hst) as (_ & (t & -> & Hrem & _) & _).
  rewrite existsb_app. apply orb_true_iff. left.
  apply existsb_removes. rewrite removals_cons. cbn [app]. rewrite Hrem, elem_of_elements.
  apply elem_of_dom in Hsome. set_solver.
Qed.

Lemma C2_rejected_name_not_mirrored_not_spared_witness :
  let w := calm_world [[".github"; "alpha"]] in
  let d : gmap string node := <[".github" := Dir]> (<["alpha" := Dir]> ∅) in
  let o := _backup w "me" "/backup" d in
  existsb (fetches ".github") (evs o) = false ∧
  existsb (clones ".github") (evs o) = false ∧
  existsb (publishes ".github") (evs o) = false ∧
  (∀ dev ino, backup_dir_status w = DirOk dev ino →
     is_Some (d !! ".github") → ".github" ≠ _LOCK_FILE_NAME →
     existsb (removes ".github") (evs o) = true).
Proof.
  apply (C2_rejected_name_not_mirrored_not_spared
           (calm_world [[".github"; "alpha"]]) "me" "/backup" _ ["alpha"; ".github"]).
  - vm_compute. reflexivity.
  - elem_here.
  - reflexivity.
Defined.

(** ** The claims on the remote lister *)

(** C5 (the code departs from the claim).  A response with status 200 whose
    body is a JSON list of repositories is refused as an invalid response
    when its content type is exactly [application/json]: line 150 raises
    [ValueError] on that very type.  The same body under the content type
    GitHub sends is taken. *)
Theorem C5_json_content_type_is_refused :
  let strict := with_server (λ _, page_with_type "application/json" ["alpha"]) (calm_world []) in
  let usual := calm_world [["alpha"]] in
  res (_get_user_repositories strict "me" ∅) = Raise (invalid_response_error (api_url "me")) ∧
  res (_get_user_repositories usual "me" ∅) = Ok ["alpha"].
Proof. split; vm_compute; reflexivity. Qed.

(** Pagination.  Let the pages [1 .. stop] have names, and page [stop + 1] be empty
    unless [stop] is the ceiling of 100 pages.  Then the lister asks for the
    pages 1, 2, ... in order, one request each, up to the empty page or the
    ceiling; at the ceiling it calls [log.error] and still returns; the
    result is the names of the pages [1 .. stop], each once. *)
Lemma pagination_and_deduplication w user d (names : nat → list string) stop :
  stop ≤ max_pages →
  (∀ p, 1 ≤ p ≤ stop → serves w p (names p) ∧ names p ≠ []) →
  (stop < max_pages → serves w (S stop) []) →
  let o := _get_user_repositories w user d in
  let l := elements (collected names stop) in
  res o = Ok l ∧ dir o = d ∧
  pages_requested (evs o) = seq 1 (if decide (stop = max_pages) then max_pages else S stop) ∧
  filter (λ c, is_log c = true) (evs o) =
    (if decide (stop = max_pages) then [ceiling_log (api_url user) max_pages] else []) ∧
  NoDup l ∧
  ∀ x, x ∈ l ↔ ∃ p, 1 ≤ p ≤ stop ∧ x ∈ names p.
Proof.
  intros Hstop Hpages Hend. cbv zeta. unfold _get_user_repositories. cbv zeta.
  rewrite bind_eq.
  change (∅ : gset string) with (collected names 0).
  rewrite (pages_loop_run w (api_url user) names stop max_pages 0 0 d); try done; try lia.
  cbn [res dir evs ret prepend]. rewrite app_nil_r.
  assert (∀ a n, pages_requested (HttpGet (api_url user) <$> seq a n) = seq a n) as Hreq.
  { intros a n. revert a. unfold pages_requested.
    induction n as [|n IH]; intros a; [done|].
    cbn [seq]. rewrite fmap_cons, bind_cons, IH. done. }
  assert (∀ a n, filter (λ c, is_log c = true) (HttpGet (api_url user) <$> seq a n) = [])
    as Hlogs.
  { intros a n. revert a. induction n as [|n IH]; intros a; [done|].
    cbn [seq]. rewrite fmap_cons, filter_cons_False by done. apply IH. }
  split; [done|]. split; [done|]. split; [|split; [|split]].
  - destruct (decide (stop = max_pages)).
    + unfold pages_requested in *. rewrite bind_app, Hreq. apply app_nil_r.
    + rewrite Nat.sub_0_r. apply Hreq.
  - destruct (decide (stop = max_pages)).
    + by rewrite filter_app, Hlogs.
    + apply Hlogs.
  - apply NoDup_elements.
  - intros x. by rewrite elem_of_elements, elem_of_collected.
Qed.

Lemma pagination_and_deduplication_example :
  let pages := [["a"; "b"]; ["b"; "c"]] in
  let names := λ p, default [] (pages !! (p - 1)) in
  let o := _get_user_repositories (calm_world pages) "me" ∅ in
  let l := elements (collected names 2) in
  res o = Ok l ∧ dir o = ∅ ∧
  pages_requested (evs o) = seq 1 (if decide (2 = max_pages) then max_pages else 3) ∧
  filter (λ c, is_log c = true) (evs o) =
    (if decide (2 = max_pages) then [ceiling_log (api_url "me") max_pages] else []) ∧
  NoDup l ∧
  ∀ x, x ∈ l ↔ ∃ p, 1 ≤ p ≤ 2 ∧ x ∈ names p.
Proof.
  apply (pagination_and_deduplication (calm_world [["a"; "b"]; ["b"; "c"]]) "me" ∅
           (λ p, default [] ([["a"; "b"]; ["b"; "c"]] !! (p - 1))) 2).
  - unfold max_pages. lia.
  - intros p Hp. assert (p = 1 ∨ p = 2) as [-> | ->] by lia.
    + split; [|discriminate]. eexists _, _. repeat split; try reflexivity. discriminate.
    + split; [|discriminate]. eexists _, _. repeat split; try reflexivity. discriminate.
  - intros _. eexists _, _. repeat split; try reflexivity. discriminate.
Defined.

Lemma log_record_of_logs (t : list call) :
  omap log_record t = omap log_record (filter (λ c, is_log c = true) t).
Proof.
  induction t as [|c t IH]; [done|]. rewrite filter_cons.
  destruct c; cbn [is_log]; try (rewrite decide_False by done; cbn; exact IH).
  rewrite decide_True by done. cbn [omap list_omap]. by rewrite IH.
Qed.

(** C6 (the code departs from the claim).  When each of the 100 pages is
    one the lister takes and has names, [_get_user_repositories] asks for
    the pages 1 to 100 in order and returns the names of all of them, each
    once, as the claim has it; and it calls [log.error] once, with a text
    whose fields are written [{}] and two arguments.  [logging] formats
    with [%]: for that text and these arguments [%] raises, so the call
    puts no record on the log, at ERROR level or any other: reaching the
    ceiling is not logged. *)
Theorem C6_ceiling_error_is_not_written w user d (names : nat → list string) :
  (∀ p, 1 ≤ p ≤ max_pages → serves w p (names p) ∧ names p ≠ []) →
  let o := _get_user_repositories w user d in
  let l := elements (collected names max_pages) in
  res o = Ok l ∧ dir o = d ∧
  pages_requested (evs o) = seq 1 max_pages ∧
  (NoDup l ∧ ∀ x, x ∈ l ↔ ∃ p, 1 ≤ p ≤ max_pages ∧ x ∈ names p) ∧
  filter (λ c, is_log c = true) (evs o) =
    [Log ERROR "Got too many repositories from {} (>{} pages). Skip the rest of pages."
         [api_url user; "100"]] ∧
  percent "Got too many repositories from {} (>{} pages). Skip the rest of pages."
          [api_url user; "100"] = None ∧
  omap log_record (evs o) = [].
Proof.
  intros Hpages.
  destruct (pagination_and_deduplication w user d names max_pages) as (Hres & Hdir & Hreq & Hlog & Hnd & Hmem);
    [done|done|lia|].
  cbv zeta in *. destruct (decide (max_pages = max_pages)); [|done].
  split; [done|]. split; [done|]. split; [done|]. split; [done|].
  split; [exact Hlog|]. split; [reflexivity|].
  rewrite log_record_of_logs, Hlog. reflexivity.
Qed.

Lemma C6_ceiling_error_is_not_written_witness :
  let w := with_server (λ _, page_of ["alpha"]) (calm_world []) in
  let o := _get_user_repositories w "me" ∅ in
  res o = Ok ["alpha"] ∧
  pages_requested (evs o) = seq 1 100 ∧
  filter (λ c, is_log c = true) (evs o) =
    [Log ERROR "Got too many repositories from {} (>{} pages). Skip the rest of pages."
         ["https://api.github.com/users/me/repos"; "100"]] ∧
  omap log_record (evs o) = [].
Proof.
  cbv zeta.
  destruct (C6_ceiling_error_is_not_written
              (with_server (λ _, page_of ["alpha"]) (calm_world [])) "me" ∅ (λ _, ["alpha"]))
    as (Hres & _ & Hreq & _ & Hlog & _ & Hrec).
  - intros p _. split; [|discriminate].
    eexists _, _. repeat split; try reflexivity. discriminate.
  - split; [|split; [exact Hreq|split; [exact Hlog|exact Hrec]]].
    rewrite Hres. vm_compute. reflexivity.
Defined.

(** ** The whole run *)

Lemma check_forbidden_out w bd fd fs d :
  check_forbidden w bd fd fs d = Out (res (check_forbidden w bd fd fs ∅)) d [].
Proof.
  unfold check_forbidden, os_path_samefile. run_monad.
  destruct (stat_backup_dir w) as [dev1 ino1|[]]; destruct fs as [dev2 ino2|[]];
    run_monad; try done.
  by destruct (bool_decide (dev1 = dev2) && bool_decide (ino1 = ino2)).
Qed.

Lemma gate_out w bd d :
  _check_backup_dir w bd d = Out (res (_check_backup_dir w bd ∅)) d [].
Proof.
  unfold _check_backup_dir. rewrite !bind_eq.
  rewrite (check_forbidden_out w bd "/" (root_stat w) d).
  rewrite (check_forbidden_out w bd "/" (root_stat w) ∅). cbn [res dir evs].
  destruct (res (check_forbidden w bd "/" (root_stat w) ∅)); [|done].
  rewrite (check_forbidden_out w bd "~" (home_stat w) d).
  rewrite (check_forbidden_out w bd "~" (home_stat w) ∅). done.
Qed.


(** The gate lets a directory that is not there pass, without a word. *)
Lemma gate_missing w bd d :
  backup_dir_status w = DirMissing →
  _check_backup_dir w bd d = Out (Ok tt) d [].
Proof.
  intros Hs. unfold _check_backup_dir, check_forbidden, os_path_samefile, stat_backup_dir.
  rewrite Hs. done.
Qed.

(** [run], branch by branch. *)
Lemma run_eq w a d :
  run w a d =
  match res (_check_backup_dir w (backup_dir a) ∅) with
  | Raise e => Out (Raise e) d []
  | Ok _ =>
      match pidfile w with
      | PidFileLockedError msg =>
          if cron a
          then Out (Ok tt) d [AcquirePidfile; Log DEBUG "Exiting: %s" [msg]]
          else Out (Raise (Error (format "{}" [msg]))) d [AcquirePidfile]
      | PidFileLockError msg => Out (Raise (Error (format "{}" [msg]))) d [AcquirePidfile]
      | PidAcquired =>
          let o := _backup w (user a) (backup_dir a) (<[_LOCK_FILE_NAME := File]> d) in
          match unlink_err w _LOCK_FILE_NAME with
          | None =>
              Out (res o) (delete _LOCK_FILE_NAME (dir o))
                  (AcquirePidfile :: evs o ++ [Remove _LOCK_FILE_NAME true])
          | Some e =>
              Out (res o) (dir o)
                  (AcquirePidfile :: evs o ++
                   [Remove _LOCK_FILE_NAME false; lock_unlink_log (backup_dir a)])
          end
      end
  end.
Proof.
  unfold run, acquire_pidfile, os_unlink, lock_unlink_log. cbv zeta.
  rewrite bind_eq, gate_out. cbn [res dir evs].
  destruct (res (_check_backup_dir w (backup_dir a) ∅)); [|done].
  destruct (pidfile w) as [|msg|msg]; run_monad.
  - destruct (_backup w (user a) (backup_dir a) _) as [r d1 t1].
    destruct (unlink_err w _LOCK_FILE_NAME); run_monad; by destruct r.
  - by destruct (cron a).
  - done.
Qed.

Lemma mirror_all_ok w user bd l d : res (mirror_all w user bd l d) = Ok tt.
Proof. apply mirror_all_calls. Qed.

Lemma reconcile_res w user bd l d :
  res (reconcile w user bd l d) =
  match backup_dir_status w with
  | DirOk _ _ => Ok tt
  | DirMissing =>
      Raise (Error (format "Unable to list '{}' directory: {}."
                           [bd; "No such file or directory"]))
  | DirNoAccess | DirNoRead _ _ =>
      Raise (Error (format "Unable to list '{}' directory: {}." [bd; "Permission denied"]))
  end.
Proof.
  destruct (backup_dir_status w) as [dev ino| | |dev ino] eqn:Hst.
  - rewrite (reconcile_eq _ _ _ _ _ _ _ Hst). apply mirror_all_ok.
  - unfold reconcile, _cleanup, os_listdir. rewrite Hst. done.
  - unfold reconcile, _cleanup, os_listdir. rewrite Hst. done.
  - unfold reconcile, _cleanup, os_listdir. rewrite Hst. done.
Qed.

Lemma _backup_res w user bd d :
  res (_backup w user bd d) =
  match res (targets w user d) with
  | Ok l => res (reconcile w user bd l d)
  | Raise e => Raise e
  end.
Proof.
  rewrite _backup_eq. destruct (res (targets w user d)); [|done]. by rewrite prepend_eq.
Qed.


Lemma _mirror_repo_logged w name url bd d :
  existsb failed (evs (_mirror_repo w name url bd d)) = true →
  existsb is_error_log (evs (_mirror_repo w name url bd d)) = true.
Proof. mirror_cases w name url bd d; done. Qed.


Lemma run_res w a d :
  res (run w a d) =
  match res (_check_backup_dir w (backup_dir a) ∅) with
  | Raise e => Raise e
  | Ok _ =>
      match pidfile w with
      | PidFileLockedError msg => if cron a then Ok tt else Raise (Error (format "{}" [msg]))
      | PidFileLockError msg => Raise (Error (format "{}" [msg]))
      | PidAcquired =>
          res (_backup w (user a) (backup_dir a) (<[_LOCK_FILE_NAME := File]> d))
      end
  end.
Proof.
  rewrite run_eq. destruct (res (_check_backup_dir w (backup_dir a) ∅)); [|done].
  destruct (pidfile w); [|by destruct (cron a)|done].
  cbv zeta. by destruct (unlink_err w _LOCK_FILE_NAME).
Qed.

Lemma main_status w a d :
  (main w a d).1.1 =
  match Re.search user_re (user a) with
  | None => ExitUsage
  | Some _ => exit_of (res (run w a d))
  end.
Proof. unfold main. by destruct (Re.search user_re (user a)). Qed.

(** ** The claims on failures *)





(** C9.  When the remote lister fails, with whatever exception, [_backup]
    ends with that exception, the directory is as it was, and the run has
    made no call but those of the listing: nothing listed locally, nothing
    removed, cloned, fetched or renamed.  In [main] the process then ends
    with status 1, and the lock file is the only entry the run touched. *)
Theorem C9_listing_failure_mutates_nothing w u bd d e :
  res (_get_user_repositories w u d) = Raise e →
  (res (_backup w u bd d) = Raise e ∧
   dir (_backup w u bd d) = d ∧
   forallb is_listing_call (evs (_backup w u bd d)) = true) ∧
  (∀ a, user a = u → backup_dir a = bd →
     is_Some (Re.search user_re u) →
     res (_check_backup_dir w bd d) = Ok tt →
     pidfile w = PidAcquired →
     (main w a d).1.1 = exit_of (Raise e) ∧
     exit_code (main w a d).1.1 = 1%Z ∧
     (∀ k, k ≠ _LOCK_FILE_NAME → (main w a d).1.2 !! k = d !! k) ∧
     forallb (λ c, negb (is_mutation c) || removes _LOCK_FILE_NAME c) (main w a d).2 = true).
Proof.
  intros He.
  assert (∀ d', res (_backup w u bd d') = Raise e ∧
                dir (_backup w u bd d') = d' ∧
                forallb is_listing_call (evs (_backup w u bd d')) = true) as Hb.
  { intros d'. rewrite _backup_eq.
    destruct (targets_out w u d') as (_ & Hcalls & Ht).
    destruct (listing_frame w w u d' d) as [Hl _]; [done|].
    rewrite Hl in Ht. cbn [res] in Ht. rewrite He in Ht. by rewrite Ht. }
  split; [apply Hb|].
  intros a <- <- [n Hn] Hgate Hpid. unfold main. rewrite Hn. cbn [fst snd].
  rewrite run_eq. rewrite (gate_out w _ d) in Hgate. cbn [res] in Hgate.
  rewrite Hgate, Hpid. cbv zeta.
  destruct (Hb (<[_LOCK_FILE_NAME:=File]> d)) as (-> & Hdir & Hcalls).
  assert (forallb (λ c, negb (is_mutation c) || removes _LOCK_FILE_NAME c)
                  (evs (_backup w (user a) (backup_dir a) (<[_LOCK_FILE_NAME:=File]> d)))
          = true) as Hcalls'.
  { apply forallb_Forall. apply forallb_Forall in Hcalls.
    eapply Forall_impl; [exact Hcalls|]. by intros []. }
  destruct (unlink_err w _LOCK_FILE_NAME); cbn [res dir evs];
    (split; [done|]; split; [by destruct e|]; split;
     [|cbn [forallb]; by rewrite forallb_app, Hcalls']).
  - intros k Hk. by rewrite Hdir, lookup_insert_ne.
  - intros k Hk. by rewrite Hdir, lookup_delete_ne, lookup_insert_ne.
Qed.

Lemma C9_listing_failure_mutates_nothing_witness :
  let w := with_server (λ _, Responded (Response 500 "Internal Server Error" None None))
                       (calm_world []) in
  let d : gmap string node := <["alpha" := Dir]> (<["old" := Dir]> ∅) in
  let e := listing_error (api_url "me") "Internal Server Error" in
  res (_backup w "me" "/backup" d) = Raise e ∧
  dir (_backup w "me" "/backup" d) = d ∧
  forallb is_listing_call (evs (_backup w "me" "/backup" d)) = true.
Proof.
  apply (C9_listing_failure_mutates_nothing
           (with_server (λ _, Responded (Response 500 "Internal Server Error" None None))
                        (calm_world [])) "me" "/backup").
  vm_compute. reflexivity.
Defined.

(** ** The safety gate *)

Lemma append_nil_r (s : string) : s +:+ "" = s.
Proof.
  induction s as [|c s IH]; [done|].
  change (String c (s +:+ "") = String c s). by rewrite IH.
Qed.

Lemma format_braces msg : format "{}" [msg] = msg.
Proof. change (msg +:+ "" = msg). apply append_nil_r. Qed.

Lemma format_error msg : format "Error: {}" [msg] = "Error: " +:+ msg.
Proof. change ("Error: " +:+ (msg +:+ "") = "Error: " +:+ msg). by rewrite append_nil_r. Qed.


(** C10, counterexample.  The backup directory does not exist and the gate
    lets it pass; the next step, the pid file inside that directory, cannot
    be made, and the run ends there: the directory is never listed. *)
Lemma C10_missing_directory_fails_at_the_lock :
  let w := with_pidfile (PidFileLockError "Unable to lock '/backup/.lock': No such file or directory")
                        (with_status DirMissing (calm_world [["alpha"]])) in
  let a := Args "me" "/backup" false false in
  backup_dir_status w = DirMissing ∧
  res (_check_backup_dir w "/backup" ∅) = Ok tt ∧
  main w a ∅ =
    (ExitMessage "Error: Unable to lock '/backup/.lock': No such file or directory",
     ∅, [AcquirePidfile]).
Proof. vm_compute. done. Qed.

(** C10 (amended).  When the backup directory does not exist, the gate
    passes without a word (the ENOENT of the comparison is swallowed), and
    the run goes on to its next step, the lock: the lock file is to be
    made inside the directory, which cannot be done, and with the lock
    error that [psys.daemon] then answers the run ends there, with that
    message and status 1.  The lock attempt is its only call: the
    directory is never listed. *)
Theorem C10_missing_directory_stops_at_the_lock w a d msg :
  backup_dir_status w = DirMissing →
  pidfile w = PidFileLockError msg →
  _check_backup_dir w (backup_dir a) d = Out (Ok tt) d [] ∧
  (is_Some (Re.search user_re (user a)) →
   main w a d = (ExitMessage ("Error: " +:+ msg), d, [AcquirePidfile]) ∧
   exit_code (main w a d).1.1 = 1%Z ∧
   Listdir ∉ (main w a d).2).
Proof.
  intros Hst Hp. split; [by apply gate_missing|].
  intros [n Hn].
  assert (main w a d = (ExitMessage ("Error: " +:+ msg), d, [AcquirePidfile])) as ->.
  { unfold main. rewrite Hn, run_eq, (gate_missing w _ ∅ Hst), Hp. cbn [res dir evs exit_of].
    by rewrite format_braces, format_error. }
  split; [done|]. split; [done|]. cbn [snd].
  apply not_elem_of_cons. split; [done|]. apply not_elem_of_nil.
Qed.

Lemma C10_missing_directory_stops_at_the_lock_witness :
  let w := with_pidfile (PidFileLockError "Unable to lock '/backup/.lock': No such file or directory")
                        (with_status DirMissing (calm_world [["alpha"]])) in
  let a := Args "me" "/backup" false false in
  let d : gmap string node := ∅ in
  _check_backup_dir w (backup_dir a) d = Out (Ok tt) d [] ∧
  (is_Some (Re.search user_re (user a)) →
   main w a d =
     (ExitMessage ("Error: " +:+ "Unable to lock '/backup/.lock': No such file or directory"),
      d, [AcquirePidfile]) ∧
   exit_code (main w a d).1.1 = 1%Z ∧
   Listdir ∉ (main w a d).2).
Proof.
  apply (C10_missing_directory_stops_at_the_lock
           (with_pidfile (PidFileLockError "Unable to lock '/backup/.lock': No such file or directory")
              (with_status DirMissing (calm_world [["alpha"]])))
           (Args "me" "/backup" false false) ∅); reflexivity.
Defined.

(** ** The mirror operator *)

Ltac each_call :=
  repeat first [ apply Forall_nil_2 | apply Forall_cons_2 ];
  try discriminate; intros _; first [ by left | by right ].

Ltac prefix_cases i :=
  unfold mirror_failure_log;
  destruct i as [|[|[|[|[|i]]]]]; cbn [take existsb published orb replay foldl effect];
  rewrite ?take_nil; cbn [existsb published orb replay foldl effect].

(** C7.  For a repository whose name is an entry name and that has no entry
    in the directory, [_mirror_repo] raises nothing; the directory it
    leaves is the one the calls of its trace explain; until the rename
    every call that changes anything writes to the temporary path [.name]
    only; the rename is made only after a clone and a gc that succeeded;
    at every point of the run before a rename that succeeded the final
    name has no entry and no entry but the temporary path has changed; so
    when clone, gc or rename fails the final name has no entry afterwards,
    and when none fails it holds the mirror and the temporary path is
    gone. *)
Theorem C7_clone_atomicity w name url bd d :
  is_entry_name name = true →
  d !! name = None →
  let o := _mirror_repo w name url bd d in
  let temp := "." +:+ name in
  res o = Ok tt ∧
  dir o = replay w (evs o) d ∧
  Forall (λ c, is_mutation c = true → written c = [temp] ∨ c = Rename temp name (published c))
         (evs o) ∧
  (∀ i c, evs o !! i = Some c → is_rename c = true →
          Git (CloneMirror url temp) true ∈ take i (evs o) ∧
          Git (GcAggressive temp) true ∈ take i (evs o)) ∧
  (∀ i, existsb published (take i (evs o)) = false →
        replay w (take i (evs o)) d !! name = None ∧
        ∀ k, k ≠ temp → replay w (take i (evs o)) d !! k = d !! k) ∧
  (existsb failed (evs o) = true →
   dir o !! name = None ∧ ∀ k, k ≠ temp → dir o !! k = d !! k) ∧
  (existsb failed (evs o) = false →
   dir o !! name = Some Dir ∧ dir o !! temp = None).
Proof.
  intros He Habs. cbv zeta.
  assert (exists_at w d name = false) as Hex.
  { rewrite exists_at_entry by done. unfold path_exists. by rewrite Habs. }
  pose proof (hidden_ne name) as Hne.
  pose proof (hidden_entry_name name He) as Ht.
  assert (∀ ok k, k ≠ "." +:+ name →
            git_effect w (CloneMirror url ("." +:+ name)) ok d !! k = d !! k) as Hclone_ne.
  { intros ok k Hk. by apply git_effect_clone_ne. }
  assert (∀ ok, git_effect w (CloneMirror url ("." +:+ name)) ok d !! name = None) as Hclone_name.
  { intros ok. by rewrite Hclone_ne. }
  rewrite _mirror_repo_cases. cbv zeta. rewrite Hex.
  destruct (git w (CloneMirror url ("." +:+ name))) as [msg|] eqn:Hclone;
    [|destruct (git w (GcAggressive ("." +:+ name))) as [msg|] eqn:Hgc;
      [|destruct (rename_err w ("." +:+ name) name) as [e|] eqn:Hren]];
    cbn [res dir evs]; (split; [done|]).
  - split; [done|]. split; [each_call|]. split.
    { intros i c Hi Hc. prefix_cases i; cbn in Hi; by simplify_eq. }
    split.
    { intros i. prefix_cases i; intros _; (split; [by rewrite ?Hclone_name|intros k Hk; by rewrite ?Hclone_ne]). }
    split; [|done]. intros _. (split; [by rewrite ?Hclone_name|intros k Hk; by rewrite ?Hclone_ne]).
  - split; [done|]. split; [each_call|]. split.
    { intros i c Hi Hc. prefix_cases i; cbn in Hi; by simplify_eq. }
    split.
    { intros i. prefix_cases i; intros _;
        change (git_effect w (GcAggressive ("." +:+ name)) false ?x) with x;
        (split; [by rewrite ?Hclone_name|intros k Hk; by rewrite ?Hclone_ne]). }
    split; [|done]. intros _. (split; [by rewrite ?Hclone_name|intros k Hk; by rewrite ?Hclone_ne]).
  - split; [done|]. split; [each_call|]. split.
    { intros i c Hi Hc. prefix_cases i; cbn in Hi; simplify_eq; try done.
      split; elem_here. }
    split.
    { intros i. prefix_cases i; intros _;
        change (git_effect w (GcAggressive ("." +:+ name)) true ?x) with x;
        (split; [by rewrite ?Hclone_name|intros k Hk; by rewrite ?Hclone_ne]). }
    split; [|done]. intros _. (split; [by rewrite ?Hclone_name|intros k Hk; by rewrite ?Hclone_ne]).
  - split; [done|]. split; [each_call|]. split.
    { intros i c Hi Hc. prefix_cases i; cbn in Hi; simplify_eq; try done.
      split; elem_here. }
    split.
    { intros i. prefix_cases i; try discriminate; intros _;
        change (git_effect w (GcAggressive ("." +:+ name)) true ?x) with x;
        (split; [by rewrite ?Hclone_name|intros k Hk; by rewrite ?Hclone_ne]). }
    split; [done|]. intros _. rewrite published_entry by done.
    split; [apply lookup_insert_eq|]. rewrite lookup_insert_ne by done. apply lookup_delete_eq.
Qed.

Lemma C7_clone_atomicity_witness :
  let w := with_git (λ cmd, match cmd with GcAggressive _ => Some "gc failed" | _ => None end)
                    (calm_world []) in
  let o := _mirror_repo w "alpha" "https://github.com/me/alpha.git" "/backup" ∅ in
  res o = Ok tt ∧
  dir o = replay w (evs o) ∅ ∧
  (existsb failed (evs o) = true →
   dir o !! "alpha" = None ∧ ∀ k, k ≠ ".alpha" → dir o !! k = (∅ : gmap string node) !! k).
Proof.
  cbv zeta.
  destruct (C7_clone_atomicity
              (with_git (λ cmd, match cmd with GcAggressive _ => Some "gc failed" | _ => None end)
                        (calm_world []))
              "alpha" "https://github.com/me/alpha.git" "/backup" ∅)
    as (H1 & H2 & _ & _ & _ & H3 & _); [reflexivity|reflexivity|].
  split; [exact H1|]. split; [exact H2|exact H3].
Defined.

(** ** Running twice *)

(** C4, counterexample.  The first run mirrors its one repository without a
    failure, but cannot remove the stale entry [stale]; the remote set does
    not change; the second run has [stale] in its deletion set again. *)
Lemma C4_failed_removal_comes_back :
  let w := with_rmtree_errors (λ path, if decide (path = "stale") then 1 else 0)
                              (calm_world [["alpha"]]) in
  let d : gmap string node := {["stale" := Dir]} in
  let o1 := _backup w "me" "/backup" d in
  let o2 := _backup w "me" "/backup" (dir o1) in
  res o1 = Ok tt ∧
  forallb (λ c, is_remove c || negb (failed c)) (evs o1) = true ∧
  existsb (fetches "alpha") (evs o1) || existsb (publishes "alpha") (evs o1) = true ∧
  removals (evs o2) = ["stale"].
Proof. vm_compute. done. Qed.

(** C4 (amended).  If a run completes and nothing failed in it, neither
    the removal of an entry nor the mirroring of a repository, and the
    server answers the second run as it answered the first while the
    directory can still be listed, then the second run ends well, sets out
    to remove nothing, makes no call that changes the directory or a
    mirror other than a fetch, and fetches every repository of the target
    list.  The targets are taken to be entry names, as the Repository
    Names of the data model are. *)
Theorem C4_second_run_only_fetches w1 w2 u bd d :
  (∀ p, server w2 p = server w1 p) →
  backup_dir_status w2 = backup_dir_status w1 →
  (∀ l, res (targets w1 u d) = Ok l → Forall (λ n, is_entry_name n = true) l) →
  res (_backup w1 u bd d) = Ok tt →
  forallb (λ c, negb (failed c)) (evs (_backup w1 u bd d)) = true →
  let o2 := _backup w2 u bd (dir (_backup w1 u bd d)) in
  res o2 = Ok tt ∧
  removed_set (evs o2) = ∅ ∧
  forallb (λ c, negb (is_mutation c) || is_fetch c) (evs o2) = true ∧
  ∀ l, res (targets w1 u d) = Ok l → ∀ n, n ∈ l → existsb (fetches n) (evs o2) = true.
Proof.
  intros Hs Hst2 Hentries. rewrite (_backup_eq w1).
  destruct (res (targets w1 u d)) as [l|e] eqn:Ht1; [|done].
  assert (Forall (λ n, target_name n = true) l) as Hacc.
  { pose proof (targets_accepted w1 u d l Ht1) as Ha. specialize (Hentries l eq_refl).
    rewrite Forall_forall in *. intros n Hn. unfold target_name.
    by rewrite (Ha n Hn), (Hentries n Hn). }
  rewrite prepend_eq. cbn [res dir evs]. rewrite reconcile_res.
  destruct (backup_dir_status w1) as [dev ino| | |dev ino] eqn:Hst1; try done.
  intros _. rewrite (reconcile_eq _ _ _ _ _ _ _ Hst1). cbn [dir evs].
  rewrite !forallb_app, !andb_true_iff. intros (_ & Hnf1 & Hnf2).
  destruct (_cleanup_spec w1 bd l d dev ino Hst1) as (_ & _ & Hout1 & _ & Hgone1 & _).
  specialize (Hgone1 Hnf1).
  set (d1 := dir (_cleanup w1 bd l d)) in *.
  destruct (mirror_all_success w1 u bd l d1 Hacc Hnf2) as [Hall Hrest].
  set (d2 := dir (mirror_all w1 u bd l d1)) in *.
  assert (dom d2 ∖ list_to_set l ∖ {[_LOCK_FILE_NAME]} = (∅ : gset string)) as Hempty.
  { apply set_eq. intros k. split; [|set_solver].
    rewrite !elem_of_difference, elem_of_dom, elem_of_list_to_set, elem_of_singleton.
    intros [[[x Hx] Hkl] Hlock]. exfalso.
    destruct (Hrest k Hkl) as [Hk|Hk]; [congruence|].
    rewrite Hk in Hx.
    destruct (decide (k ∈ dom d ∖ list_to_set l ∖ {[_LOCK_FILE_NAME]})) as [Hin|Hnin].
    - rewrite Hgone1 in Hx; done.
    - rewrite Hout1 in Hx by done. apply Hnin.
      rewrite !elem_of_difference, elem_of_dom, elem_of_list_to_set, elem_of_singleton.
      eauto. }
  cbv zeta. rewrite (_backup_eq w2).
  destruct (targets_frame w2 w1 u d2 d Hs) as [Hres2 Hevs2]. rewrite Hres2, Ht1.
  destruct (targets_out w2 u d2) as (_ & Hcalls2 & _).
  rewrite prepend_eq, (reconcile_eq _ _ _ _ _ _ _ Hst2). cbn [res dir evs].
  rewrite (_cleanup_listed _ _ _ _ _ _ Hst2), Hempty, elements_empty.
  cbn [for_ ret res dir evs].
  destruct (mirror_all_present w2 u bd l d2 Hacc Hall) as [_ Hfetch].
  destruct (mirror_all_keeps w2 u bd l d2 Hacc) as [_ Hkeep].
  destruct (mirror_all_calls w2 u bd l d2) as (Hok2 & Hm2 & _).
  destruct (listing_calls_touch_nothing _ "" Hcalls2) as (_ & _ & _ & _ & Hmut & Hrem).
  split; [done|]. split; [|split].
  - unfold removed_set.
    rewrite !removals_app, Hrem, (removals_mirror_calls _ _ _ Hm2). done.
  - rewrite !forallb_app. cbn [forallb is_mutation negb orb andb].
    apply andb_true_iff. split.
    + apply forallb_Forall. apply existsb_false_Forall in Hmut.
      eapply Forall_impl; [exact Hmut|]. intros c Hc. by rewrite Hc.
    + apply forallb_Forall. apply forallb_Forall in Hfetch.
      eapply Forall_impl; [exact Hfetch|]. by intros [| | |[]| | |].
  - intros l' [= <-] n Hn. rewrite !existsb_app.
    destruct (Hkeep n Hn (Hall n Hn)) as [-> _]. by rewrite !orb_true_r.
Qed.

Lemma C4_second_run_only_fetches_witness :
  let w := calm_world [["alpha"; "Beta"]] in
  let d : gmap string node := <["old" := Dir]> (<["alpha" := Dir]> ∅) in
  let o2 := _backup w "me" "/backup" (dir (_backup w "me" "/backup" d)) in
  res o2 = Ok tt ∧
  removed_set (evs o2) = ∅ ∧
  forallb (λ c, negb (is_mutation c) || is_fetch c) (evs o2) = true ∧
  ∀ l, res (targets w "me" d) = Ok l → ∀ n, n ∈ l → existsb (fetches n) (evs o2) = true.
Proof.
  apply (C4_second_run_only_fetches
           (calm_world [["alpha"; "Beta"]]) (calm_world [["alpha"; "Beta"]]) "me" "/backup").
  - reflexivity.
  - reflexivity.
  - intros l Hl. vm_compute in Hl. injection Hl as <-. repeat constructor.
  - vm_compute. reflexivity.
  - vm_compute. reflexivity.
Defined.

(** ** Example: everything fails, the run goes on *)


(** * Further properties of the script *)

(** ** The command line *)

Lemma user_accepted_iff s :
  is_Some (Re.search user_re s) ↔
  ∃ c rest, s = String c rest ∧ Re.class_mem class_rest c = true.
Proof.
  unfold Re.search, user_re. split.
  - destruct s as [|c rest]; cbn -[Re.class_mem]; [by intros [? ?]|].
    destruct (Re.class_mem class_rest c) eqn:Hc; [|by intros [? ?]].
    intros _. by exists c, rest.
  - intros (c & rest & -> & Hc). cbn -[Re.class_mem]. rewrite Hc.
    destruct (star_total class_rest (λ _, Some 0) rest) as [n Hn]; [by eexists|].
    cbn -[Re.class_mem] in Hn. rewrite Hn. by eexists.
Qed.

(** X1.  The user name check of [_parse_args].  The run ends with the usage
    error, having made no call and changed nothing, exactly when the user
    name is empty or its first character is outside [[a-zA-Z0-9._-]]; the
    pattern has no anchor at its end, so no character after the first is
    looked at. *)
Theorem X1_usage_error_iff w a d :
  main w a d = (ExitUsage, d, []) ↔
  ¬ ∃ c rest, user a = String c rest ∧ Re.class_mem class_rest c = true.
Proof.
  rewrite <- user_accepted_iff. unfold main.
  destruct (Re.search user_re (user a)) as [n|] eqn:Hs.
  - split; [|intros []; by eexists].
    intros [= Hexit _ _]. exfalso.
    destruct (res (run w a d)) as [|[]]; discriminate.
  - split; [|done]. intros _ [? ?]. discriminate.
Qed.

(** ** The list of targets *)

Lemma filter_all {X} (P : X → Prop) `{!∀ x, Decision (P x)} (l : list X) :
  Forall P l → filter P l = l.
Proof.
  induction 1 as [|x l Hx Hl IH]; [done|].
  rewrite filter_cons_True by done. by rewrite IH.
Qed.

Lemma filter_ext_in {X} (P Q : X → Prop) `{!∀ x, Decision (P x)} `{!∀ x, Decision (Q x)}
    (l : list X) :
  (∀ x, x ∈ l → P x ↔ Q x) → filter P l = filter Q l.
Proof.
  induction l as [|x l IH]; intros Hext; [done|].
  rewrite !filter_cons. rewrite IH by (intros y Hy; apply Hext; by right).
  destruct (decide (P x)) as [Hp|Hp], (decide (Q x)) as [Hq|Hq]; try done.
  - destruct Hq. apply Hext; [by left|done].
  - destruct Hp. apply Hext; [by left|done].
Qed.

(** On a list without repetition [list.remove] is a filter. *)
Lemma list_remove_filter y l :
  NoDup l → list_remove y l = filter (λ x, x ≠ y) l.
Proof.
  induction 1 as [|z l Hz Hl IH]; [done|]. cbn [list_remove].
  destruct (decide (y = z)) as [->|Hne].
  - rewrite filter_cons_False by naive_solver.
    symmetry. apply filter_all. apply Forall_forall. by intros x Hx ->.
  - rewrite filter_cons_True by naive_solver. by rewrite IH.
Qed.

(** The loop that walks a copy of the list and removes from the list. *)
Lemma reject_invalid_eq copy : ∀ repositories d,
  NoDup repositories →
  reject_invalid copy repositories d =
  Out (Ok (filter (λ x, ¬ (x ∈ copy ∧ name_accepted x = false)) repositories)) d
      (rejection_log <$> filter (λ x, name_accepted x = false) copy).
Proof.
  induction copy as [|name rest IH]; intros repositories d Hnd.
  - cbn. f_equal. f_equal. symmetry. apply filter_all, Forall_forall.
    intros x _ [Hx _]. by apply elem_of_nil in Hx.
  - cbn [reject_invalid]. destruct (name_accepted name) eqn:Hacc.
    + rewrite IH by done. rewrite filter_cons_False by congruence.
      f_equal. f_equal. apply list_filter_iff. intros x. rewrite elem_of_cons.
      split.
      * intros Hx [[->|Hin] Hrej]; [congruence|]. by apply Hx.
      * intros Hx [Hin Hrej]. apply Hx. split; [by right|done].
    + run_monad. rewrite IH by by apply NoDup_list_remove.
      rewrite filter_cons_True by done. cbn [prepend fmap list_fmap app].
      f_equal. f_equal. rewrite list_remove_filter by done.
      rewrite list_filter_filter. apply list_filter_iff. intros x.
      rewrite elem_of_cons. split.
      * intros [Hx Hne] [[->|Hin] Hrej]; [done|]. by apply Hx.
      * intros Hx. split; [intros [Hin Hrej]; apply Hx; tauto|].
        intros ->. apply Hx. split; [by left|done].
Qed.

Lemma targets_eq w user d raw :
  res (_get_user_repositories w user d) = Ok raw →
  let repositories := sorted lower raw in
  targets w user d =
  Out (Ok (filter (λ n, name_accepted n = true) repositories)) d
      (evs (_get_user_repositories w user d) ++
       census_log user repositories ::
       (rejection_log <$> filter (λ n, name_accepted n = false) repositories)).
Proof.
  intros Hres. cbv zeta.
  destruct (listing_frame w w user d d) as [Heq _]; [done|].
  pose proof (listing_names w user d raw Hres) as Hnd.
  assert (NoDup (sorted lower raw)) as Hnd' by by rewrite sorted_perm.
  unfold targets. unfold bind at 1. rewrite Heq, Hres. cbn [res dir evs].
  destruct (sorted lower raw) as [|x0 l0] eqn:Hsorted; [done|].
  run_monad. rewrite reject_invalid_eq by done. cbn [prepend].
  f_equal. f_equal. apply filter_ext_in. intros x Hx.
  destruct (name_accepted x); naive_solver.
Qed.

(** The order of strings is transitive. *)
Lemma string_leb_trans a : ∀ b c,
  String.leb a b = true → String.leb b c = true → String.leb a c = true.
Proof.
  unfold String.leb.
  induction a as [|x a IH]; intros [|y b] [|z c]; cbn; try done.
  unfold Ascii.compare.
  destruct (N.compare_spec (N_of_ascii x) (N_of_ascii y)) as [Hxy|Hxy|Hxy];
  destruct (N.compare_spec (N_of_ascii y) (N_of_ascii z)) as [Hyz|Hyz|Hyz];
  destruct (N.compare_spec (N_of_ascii x) (N_of_ascii z)) as [Hxz|Hxz|Hxz];
    try done; try lia.
  apply IH.
Qed.

Lemma insert_by_sorted key x l :
  StronglySorted (λ a b, String.leb (key a) (key b) = true) l →
  StronglySorted (λ a b, String.leb (key a) (key b) = true) (insert_by key x l).
Proof.
  induction 1 as [|y l Hl IH Hy]; cbn.
  - repeat constructor.
  - destruct (String.leb (key x) (key y)) eqn:Hxy.
    + constructor; [by constructor|]. constructor; [done|].
      eapply Forall_impl; [exact Hy|]. intros z Hz. cbn in Hz.
      by eapply string_leb_trans.
    + constructor; [done|].
      apply Forall_forall. intros z Hz.
      rewrite (insert_by_perm key x l) in Hz.
      apply elem_of_cons in Hz as [->|Hz].
      * destruct (String.leb_total (key x) (key y)); congruence.
      * rewrite Forall_forall in Hy. by apply Hy.
Qed.

Lemma sorted_sorted key l :
  StronglySorted (λ a b, String.leb (key a) (key b) = true) (sorted key l).
Proof.
  induction l as [|x l IH]; cbn; [constructor|]. by apply insert_by_sorted.
Qed.

Lemma StronglySorted_filter {X} (R : X → X → Prop) (P : X → Prop) `{!∀ x, Decision (P x)} l :
  StronglySorted R l → StronglySorted R (filter P l).
Proof.
  induction 1 as [|x l Hl IH Hx]; [constructor|].
  rewrite filter_cons. destruct (decide (P x)); [|done].
  constructor; [done|]. apply Forall_forall. intros y [_ Hy]%list_elem_of_filter.
  rewrite Forall_forall in Hx. by apply Hx.
Qed.

(** Where no two items have the same key the sort does not depend on the
    order it is given the items in. *)
Lemma sorted_in_any_order (key : string → string) l l' :
  (∀ x y, x ∈ l → y ∈ l → key x = key y → x = y) →
  l' ≡ₚ l → sorted key l' = sorted key l.
Proof.
  intros Hinj Hperm.
  apply (StronglySorted_unique_strong (λ a b, String.leb (key a) (key b) = true)).
  - intros x y Hx Hy Hxy Hyx. apply Hinj.
    + by rewrite sorted_perm, Hperm in Hx.
    + by rewrite sorted_perm in Hy.
    + by apply String.leb_antisym.
  - apply sorted_sorted.
  - apply sorted_sorted.
  - by rewrite !sorted_perm.
Qed.

(** X2.  The first half of [_backup].  Let the listing succeed with names
    that are strings of ASCII characters, no two of them the same in lower
    case.  Then the working set is the sorted list of these names less
    the ones that fail the check, in the order of the sort: removing from
    the list while a copy is walked amounts to a filter.  The sorted list
    is the same in whatever order the set of names is walked.  The
    directory is not touched, and after the calls of the listing the
    trace has one INFO line that counts and names all the names, the
    rejected ones too, then one ERROR line for each rejected name, in
    order. *)
Theorem X2_targets_are_the_accepted_names w user d raw :
  res (_get_user_repositories w user d) = Ok raw →
  Forall (λ n, ascii_name n = true) raw →
  (∀ x y, x ∈ raw → y ∈ raw → lower x = lower y → x = y) →
  let repositories := sorted lower raw in
  targets w user d =
  Out (Ok (filter (λ n, name_accepted n = true) repositories)) d
      (evs (_get_user_repositories w user d) ++
       census_log user repositories ::
       (rejection_log <$> filter (λ n, name_accepted n = false) repositories)) ∧
  repositories ≡ₚ raw ∧
  ∀ listed, listed ≡ₚ raw → sorted lower listed = repositories.
Proof.
  intros Hres _ Hties. split; [by apply targets_eq|]. split; [apply sorted_perm|].
  intros listed Hperm. by apply sorted_in_any_order.
Qed.

Lemma X2_targets_are_the_accepted_names_witness :
  let w := calm_world [["b"; ".x"; "A"; "c/d"]] in
  targets w "me" ∅ =
  Out (Ok ["A"; "b"; "c/d"]) ∅
      [HttpGet (api_url "me") 1; HttpGet (api_url "me") 2;
       Log INFO "User %s has %s repositories: %s." ["me"; "4"; ".x, A, b, c/d"];
       Log ERROR "Got an invalid repository name: '%s'. Ignore it." [".x"]] ∧
  sorted lower ["b"; ".x"; "A"; "c/d"] = [".x"; "A"; "b"; "c/d"].
Proof.
  cbv zeta.
  assert (∀ x, x ∈ elements (list_to_set ["b"; ".x"; "A"; "c/d"] : gset string) →
               x = "b" ∨ x = ".x" ∨ x = "A" ∨ x = "c/d") as Hcases.
  { intros x Hx. rewrite elem_of_elements, elem_of_list_to_set in Hx.
    repeat (apply elem_of_cons in Hx as [Hx|Hx]; [auto|]). by apply elem_of_nil in Hx. }
  destruct (X2_targets_are_the_accepted_names (calm_world [["b"; ".x"; "A"; "c/d"]]) "me" ∅
              (elements (list_to_set ["b"; ".x"; "A"; "c/d"] : gset string)))
    as (-> & _ & Hany).
  - (vm_compute; reflexivity).
  - (apply Forall_forall; intros x Hx;
      destruct (Hcases x Hx) as [-> | [-> | [-> | ->]]]; reflexivity).
  - (intros x y Hx Hy Hl;
    destruct (Hcases x Hx) as [-> | [-> | [-> | ->]]];
      destruct (Hcases y Hy) as [-> | [-> | [-> | ->]]]; first [reflexivity | discriminate]).
  - split; [vm_compute; reflexivity|].
    rewrite (Hany ["b"; ".x"; "A"; "c/d"]).
    + vm_compute. reflexivity.
    + symmetry. apply elements_list_to_set.
      apply (proj1 (bool_decide_eq_true _)). vm_compute. reflexivity.
Defined.

(** X3.  A working set of names of ASCII characters is in the order of
    [sorted(..., key=lambda name: name.lower())]: of two names of the list
    the earlier one is, in lower case, less than or equal to the later
    one; and no name is in it twice. *)
Theorem X3_targets_in_case_insensitive_order w user d l :
  res (targets w user d) = Ok l →
  Forall (λ n, ascii_name n = true) l →
  StronglySorted (λ a b, String.leb (lower a) (lower b) = true) l ∧ NoDup l.
Proof.
  intros Hl _.
  destruct (res (_get_user_repositories w user d)) as [raw|e] eqn:Hres.
  - rewrite (targets_eq w user d raw Hres) in Hl. cbn [res] in Hl. injection Hl as <-.
    split.
    + apply StronglySorted_filter, sorted_sorted.
    + apply NoDup_filter. rewrite sorted_perm. by eapply listing_names.
  - pose proof (targets_spec w user d) as Ht. rewrite Hres in Ht.
    rewrite Ht in Hl. discriminate.
Qed.

Lemma X3_targets_in_case_insensitive_order_witness :
  StronglySorted (λ a b, String.leb (lower a) (lower b) = true) ["alpha"; "Beta"; "gamma"] ∧
  NoDup ["alpha"; "Beta"; "gamma"].
Proof.
  apply (X3_targets_in_case_insensitive_order (calm_world [["gamma"; "Beta"; "alpha"]]) "me" ∅).
  - vm_compute. reflexivity.
  - repeat constructor.
Defined.

(** ** The order of a run *)

Lemma attempted_mirror_repo w name url bd d :
  omap attempted (evs (_mirror_repo w name url bd d)) = [name].
Proof. mirror_cases w name url bd d; reflexivity. Qed.

Lemma attempted_mirror_all w user bd l d :
  omap attempted (evs (mirror_all w user bd l d)) = l.
Proof.
  unfold mirror_all.
  apply (for_invariant (λ name, _mirror_repo w name (repo_url user name) bd)
           (λ done _ t, omap attempted t = done)).
  - intros x d'. apply _mirror_repo_ok.
  - done.
  - intros done x rest d' t _ Ht.
    by rewrite omap_app, Ht, attempted_mirror_repo.
Qed.

Lemma omap_none {X Y} (f : X → option Y) (l : list X) :
  Forall (λ x, f x = None) l → omap f l = [].
Proof. induction 1 as [|x l Hx Hl IH]; [done|]. cbn. by rewrite Hx. Qed.

(** X4.  The phases of [_backup] on a directory that can be listed: first
    the calls of the listing and the log lines of the check, then the
    directory is listed, once, then come the removals with their log
    lines, and only then the calls of [_mirror_repo].  Every repository of
    the working set gets one fetch or one clone, no other repository gets
    any, and they come in the order of the working set. *)
Theorem X4_phases_of_a_run w u bd d l dev ino :
  backup_dir_status w = DirOk dev ino →
  res (targets w u d) = Ok l →
  ∃ t1 t2 t3,
    evs (_backup w u bd d) = t1 ++ Listdir :: t2 ++ t3 ∧
    forallb is_listing_call t1 = true ∧
    forallb (λ c, is_log c || is_remove c) t2 = true ∧
    Forall (λ c, ∃ n, n ∈ l ∧ mirrors u n c) t3 ∧
    omap attempted t3 = l ∧
    omap attempted (evs (_backup w u bd d)) = l.
Proof.
  intros Hst Ht. rewrite _backup_eq, Ht, prepend_eq. cbn [evs].
  destruct (targets_out w u d) as (_ & Hcalls & _).
  rewrite (reconcile_eq _ _ _ _ _ _ _ Hst). cbn [evs].
  destruct (_cleanup_spec w bd l d dev ino Hst) as (_ & (t & Hevs & _ & Hlr) & _).
  destruct (mirror_all_calls w u bd l (dir (_cleanup w bd l d))) as (_ & Hm & _).
  pose proof (attempted_mirror_all w u bd l (dir (_cleanup w bd l d))) as Ha.
  exists (evs (targets w u d)), t, (evs (mirror_all w u bd l (dir (_cleanup w bd l d)))).
  rewrite Hevs. split; [done|]. split; [done|]. split; [done|]. split; [done|]. split; [done|].
  change (Listdir :: t ++ ?x) with ((Listdir :: t) ++ x).
  rewrite !omap_app, Ha.
  rewrite (omap_none attempted (evs (targets w u d))), (omap_none attempted (Listdir :: t));
    [done|..].
  - constructor; [done|].
    apply forallb_Forall in Hlr. eapply Forall_impl; [exact Hlr|]. by intros [].
  - apply forallb_Forall in Hcalls. eapply Forall_impl; [exact Hcalls|]. by intros [].
Qed.

Lemma X4_phases_of_a_run_witness :
  let w := calm_world [["b"; "A"]] in
  let d : gmap string node := <["A" := Dir]> (<["old" := Dir]> ∅) in
  omap attempted (evs (_backup w "me" "/backup" d)) = ["A"; "b"].
Proof.
  cbv zeta.
  destruct (X4_phases_of_a_run (calm_world [["b"; "A"]]) "me" "/backup"
              (<["A" := Dir]> (<["old" := Dir]> ∅)) ["A"; "b"] 1%N 42%N)
    as (t1 & t2 & t3 & _ & _ & _ & _ & _ & H).
  - reflexivity.
  - vm_compute. reflexivity.
  - exact H.
Defined.

(** ** The gate *)

Lemma same_identity (a b c d : N) :
  bool_decide (a = c) && bool_decide (b = d) = bool_decide ((a, b) = (c, d)).
Proof.
  destruct (decide (a = c)) as [->|Ha], (decide (b = d)) as [->|Hb].
  - by rewrite !bool_decide_eq_true_2.
  - rewrite (bool_decide_eq_false_2 (b = d)), (bool_decide_eq_false_2 (_ = (c, d)));
      [apply andb_false_r|congruence|done].
  - rewrite (bool_decide_eq_false_2 (a = c)), (bool_decide_eq_false_2 (_ = (c, d)));
      [done|congruence|done].
  - rewrite (bool_decide_eq_false_2 (a = c)), (bool_decide_eq_false_2 (_ = (c, d)));
      [done|congruence|done].
Qed.

Lemma gate_verdict w bd d dev ino rd ri hd hi :
  stat_backup_dir w = StatOk dev ino →
  root_stat w = StatOk rd ri →
  home_stat w = StatOk hd hi →
  _check_backup_dir w bd d =
    Out (if bool_decide ((dev, ino) = (rd, ri)) || bool_decide ((dev, ino) = (hd, hi))
         then Raise (forbidden_dir_error bd) else Ok tt) d [].
Proof.
  intros Hs Hr Hh.
  unfold _check_backup_dir, check_forbidden, os_path_samefile. rewrite Hs, Hr, Hh.
  run_monad. rewrite !same_identity.
  destruct (bool_decide ((dev, ino) = (rd, ri))); [done|]. run_monad.
  by destruct (bool_decide ((dev, ino) = (hd, hi))).
Qed.

Lemma main_gate_raises w a d msg :
  is_Some (Re.search user_re (user a)) →
  res (_check_backup_dir w (backup_dir a) d) = Raise (Error msg) →
  main w a d = (ExitMessage ("Error: " +:+ msg), d, []).
Proof.
  intros [n Hn] Hg. unfold main. rewrite Hn, run_eq.
  rewrite gate_out in Hg. cbn [res] in Hg. rewrite Hg. cbn [res dir evs exit_of].
  by rewrite format_error.
Qed.

(** X5.  [_check_backup_dir] when the three paths can be examined: it lets
    the backup directory pass exactly when it is neither the same file as
    [/] nor the same file as the home directory (by device and inode, as
    [os.path.samefile] has it, whatever the spelling of the path); when it
    is one of the two the error says so, and the run ends with that message
    and status 1, having made no call at all: no lock file, no request, no
    listing, no removal. *)
Theorem X5_gate_refuses_root_and_home w a d dev ino rd ri hd hi :
  stat_backup_dir w = StatOk dev ino →
  root_stat w = StatOk rd ri →
  home_stat w = StatOk hd hi →
  (res (_check_backup_dir w (backup_dir a) d) = Ok tt ↔
   (dev, ino) ≠ (rd, ri) ∧ (dev, ino) ≠ (hd, hi)) ∧
  ((dev, ino) = (rd, ri) ∨ (dev, ino) = (hd, hi) →
   res (_check_backup_dir w (backup_dir a) d) = Raise (forbidden_dir_error (backup_dir a)) ∧
   (is_Some (Re.search user_re (user a)) →
    main w a d = (ExitMessage ("Error: " +:+ str (forbidden_dir_error (backup_dir a))), d, []))).
Proof.
  intros Hs Hr Hh. rewrite (gate_verdict w _ d _ _ _ _ _ _ Hs Hr Hh). cbn [res].
  split.
  - destruct (decide ((dev, ino) = (rd, ri))) as [Hroot|Hroot];
      [rewrite (bool_decide_eq_true_2 _ Hroot)|rewrite (bool_decide_eq_false_2 _ Hroot)];
      cbn [orb]; [naive_solver|].
    destruct (decide ((dev, ino) = (hd, hi))) as [Hhome|Hhome];
      [rewrite (bool_decide_eq_true_2 _ Hhome)|rewrite (bool_decide_eq_false_2 _ Hhome)];
      naive_solver.
  - intros Hsame.
    assert (bool_decide ((dev, ino) = (rd, ri)) || bool_decide ((dev, ino) = (hd, hi)) = true)
      as Hb.
    { destruct Hsame as [H|H]; rewrite (bool_decide_eq_true_2 _ H); [done|apply orb_true_r]. }
    rewrite Hb. split; [done|]. intros Hu. apply main_gate_raises; [done|].
    by rewrite (gate_verdict w _ d _ _ _ _ _ _ Hs Hr Hh), Hb.
Qed.

Lemma X5_gate_refuses_root_and_home_witness :
  let w := with_status (DirOk 1 7) (calm_world [["alpha"]]) in
  let a := Args "me" "/home/me" false false in
  let d : gmap string node := {["thesis" := Dir]} in
  res (_check_backup_dir w (backup_dir a) d) = Raise (forbidden_dir_error (backup_dir a)) ∧
  (is_Some (Re.search user_re (user a)) →
   main w a d = (ExitMessage ("Error: " +:+ str (forbidden_dir_error (backup_dir a))), d, [])).
Proof.
  cbv zeta.
  apply (X5_gate_refuses_root_and_home
           (with_status (DirOk 1 7) (calm_world [["alpha"]]))
           (Args "me" "/home/me" false false) {["thesis" := Dir]} 1%N 7%N 1%N 2%N 1%N 7%N);
    [reflexivity..|]. by right.
Defined.

(** X6.  [_check_backup_dir] when a path cannot be examined.  An error of
    [os.path.samefile] other than ENOENT, whether it comes from the backup
    directory or from a forbidden directory the check gets to, ends the
    gate with an [Error], and no call has been made.  ENOENT is swallowed
    for the forbidden directories as it is for the backup directory: with a
    home directory that does not exist, a backup directory that is not [/]
    passes. *)
Theorem X6_gate_stat_errors w bd d :
  (∀ e, stat_backup_dir w = StatFail e → e ≠ ENOENT →
        ∃ msg, _check_backup_dir w bd d = Out (Raise (Error msg)) d []) ∧
  (∀ dev ino e, stat_backup_dir w = StatOk dev ino →
        (root_stat w = StatFail e ∨
         (∃ rd ri, root_stat w = StatOk rd ri ∧ (dev, ino) ≠ (rd, ri)) ∧
         home_stat w = StatFail e) →
        e ≠ ENOENT →
        ∃ msg, _check_backup_dir w bd d = Out (Raise (Error msg)) d []) ∧
  (∀ dev ino, stat_backup_dir w = StatOk dev ino →
        (root_stat w = StatFail ENOENT ∨
         ∃ rd ri, root_stat w = StatOk rd ri ∧ (dev, ino) ≠ (rd, ri)) →
        home_stat w = StatFail ENOENT →
        _check_backup_dir w bd d = Out (Ok tt) d []).
Proof.
  split; [|split].
  - intros e Hs He. unfold _check_backup_dir, check_forbidden, os_path_samefile.
    rewrite Hs. run_monad. destruct e; try done; by eexists.
  - intros dev ino e Hs Hcase He.
    unfold _check_backup_dir, check_forbidden, os_path_samefile. rewrite Hs.
    destruct Hcase as [Hr|[(rd & ri & Hr & Hne) Hh]]; rewrite Hr.
    + run_monad. destruct e; try done; by eexists.
    + run_monad. rewrite same_identity, (bool_decide_eq_false_2 _ Hne). run_monad.
      rewrite Hh. run_monad. destruct e; try done; by eexists.
  - intros dev ino Hs Hroot Hh.
    unfold _check_backup_dir, check_forbidden, os_path_samefile. rewrite Hs, Hh.
    destruct Hroot as [Hr|(rd & ri & Hr & Hne)]; rewrite Hr; run_monad; [done|].
    by rewrite same_identity, (bool_decide_eq_false_2 _ Hne).
Qed.

Lemma X6_gate_stat_errors_witness :
  ∃ msg, _check_backup_dir (with_status DirNoAccess (calm_world [])) "/backup" ∅ =
         Out (Raise (Error msg)) ∅ [].
Proof.
  destruct (X6_gate_stat_errors (with_status DirNoAccess (calm_world [])) "/backup" ∅)
    as (H & _ & _).
  apply (H EACCES); [reflexivity|discriminate].
Defined.

(** ** The lock *)

(** X7.  When [psys.daemon.acquire_pidfile] does not give the lock, the run
    stops there.  With the lock held by another process the run ends with
    status 0 and one DEBUG line in cron mode, and with the error otherwise;
    any other failure of the lock is an error in both modes.  In every case
    the directory is as it was and the attempt on the lock is the only
    call: no request to the server, no listing, and no unlink of the lock
    file, which belongs to the other process. *)
Theorem X7_lock_not_acquired w a d :
  is_Some (Re.search user_re (user a)) →
  res (_check_backup_dir w (backup_dir a) d) = Ok tt →
  (∀ msg, pidfile w = PidFileLockedError msg →
     main w a d =
       if cron a
       then (Exit0, d, [AcquirePidfile; Log DEBUG "Exiting: %s" [msg]])
       else (ExitMessage ("Error: " +:+ msg), d, [AcquirePidfile])) ∧
  (∀ msg, pidfile w = PidFileLockError msg →
     main w a d = (ExitMessage ("Error: " +:+ msg), d, [AcquirePidfile])).
Proof.
  intros [n Hn] Hg. unfold main. rewrite Hn, run_eq.
  rewrite gate_out in Hg. cbn [res] in Hg. rewrite Hg.
  split; intros msg ->.
  - destruct (cron a); cbn [res dir evs exit_of]; [done|].
    by rewrite format_braces, format_error.
  - cbn [res dir evs exit_of]. by rewrite format_braces, format_error.
Qed.

Lemma X7_lock_not_acquired_witness :
  let w := with_pidfile (PidFileLockedError "already locked") (calm_world [["alpha"]]) in
  let d : gmap string node := {["old" := Dir]} in
  main w (Args "me" "/backup" true false) d =
    (Exit0, d, [AcquirePidfile; Log DEBUG "Exiting: %s" ["already locked"]]) ∧
  main w (Args "me" "/backup" false false) d =
    (ExitMessage "Error: already locked", d, [AcquirePidfile]).
Proof.
  cbv zeta. split.
  - destruct (X7_lock_not_acquired
                (with_pidfile (PidFileLockedError "already locked") (calm_world [["alpha"]]))
                (Args "me" "/backup" true false) {["old" := Dir]}) as [H _].
    + vm_compute. eauto.
    + reflexivity.
    + exact (H "already locked" eq_refl).
  - destruct (X7_lock_not_acquired
                (with_pidfile (PidFileLockedError "already locked") (calm_world [["alpha"]]))
                (Args "me" "/backup" false false) {["old" := Dir]}) as [H _].
    + vm_compute. eauto.
    + reflexivity.
    + exact (H "already locked" eq_refl).
Defined.

Lemma listing_calls_remove_nothing t n :
  forallb is_listing_call t = true → existsb (removes n) t = false.
Proof. intros Ht. by destruct (listing_calls_touch_nothing t n Ht) as (_ & _ & _ & ? & _). Qed.

(** [_backup] never calls a removal on the lock file. *)
Lemma _backup_spares_lock w u bd d :
  existsb (removes _LOCK_FILE_NAME) (evs (_backup w u bd d)) = false.
Proof.
  rewrite _backup_eq. destruct (targets_out w u d) as (_ & Hcalls & _).
  pose proof (listing_calls_remove_nothing _ _LOCK_FILE_NAME Hcalls) as Hl.
  destruct (res (targets w u d)) as [l|e]; [|done].
  rewrite prepend_eq. cbn [evs]. rewrite existsb_app, Hl. cbn [orb].
  destruct (status_cases w) as [(dev & ino & Hst)|Hst].
  - rewrite (reconcile_eq _ _ _ _ _ _ _ Hst). cbn [evs].
    destruct (_cleanup_spec w bd l d dev ino Hst) as (_ & (t & Hevs & Hrem & _) & _).
    destruct (mirror_all_calls w u bd l (dir (_cleanup w bd l d))) as (_ & Hm & _).
    apply not_true_is_false. rewrite existsb_removes, removals_app.
    rewrite (removals_mirror_calls _ _ _ Hm), app_nil_r, Hevs, removals_cons. cbn [app].
    rewrite Hrem, elem_of_elements. set_solver.
  - by destruct (reconcile_unlisted w u bd l d Hst) as [msg ->].
Qed.

(** X8.  The [try ... finally] of [main].  Once the lock is acquired, and
    however [_backup] ends (well, with an [Error], or with an exception
    nobody catches), the lock file is unlinked, once, as the last call
    of the run, and [_backup] itself never removes it.  When the unlink
    succeeds the lock file is gone from the directory; when it fails one
    ERROR line follows, and in both cases the process ends as [_backup]
    ended. *)
Theorem X8_lock_file_is_released w a d :
  is_Some (Re.search user_re (user a)) →
  res (_check_backup_dir w (backup_dir a) d) = Ok tt →
  pidfile w = PidAcquired →
  let o := _backup w (user a) (backup_dir a) (<[_LOCK_FILE_NAME := File]> d) in
  ∃ ok tl,
    (main w a d).2 = AcquirePidfile :: evs o ++ Remove _LOCK_FILE_NAME ok :: tl ∧
    existsb (removes _LOCK_FILE_NAME) (evs o) = false ∧
    tl = (if ok then [] else [lock_unlink_log (backup_dir a)]) ∧
    (main w a d).1.1 = exit_of (res o) ∧
    (main w a d).1.2 = (if ok then delete _LOCK_FILE_NAME (dir o) else dir o).
Proof.
  intros [n Hn] Hg Hp. cbv zeta. unfold main. rewrite Hn, run_eq.
  rewrite gate_out in Hg. cbn [res] in Hg. rewrite Hg, Hp. cbv zeta.
  pose proof (_backup_spares_lock w (user a) (backup_dir a) (<[_LOCK_FILE_NAME:=File]> d)) as Hs.
  destruct (unlink_err w _LOCK_FILE_NAME); cbn [fst snd res dir evs].
  - by exists false, [lock_unlink_log (backup_dir a)].
  - by exists true, [].
Qed.

Lemma X8_lock_file_is_released_witness :
  let w := with_server (λ _, Failed "connection refused") (calm_world []) in
  let a := Args "me" "/backup" false false in
  let d : gmap string node := {["alpha" := Dir]} in
  let o := _backup w (user a) (backup_dir a) (<[_LOCK_FILE_NAME := File]> d) in
  ∃ ok tl,
    (main w a d).2 = AcquirePidfile :: evs o ++ Remove _LOCK_FILE_NAME ok :: tl ∧
    existsb (removes _LOCK_FILE_NAME) (evs o) = false ∧
    tl = (if ok then [] else [lock_unlink_log (backup_dir a)]) ∧
    (main w a d).1.1 = exit_of (res o) ∧
    (main w a d).1.2 = (if ok then delete _LOCK_FILE_NAME (dir o) else dir o).
Proof.
  apply (X8_lock_file_is_released
           (with_server (λ _, Failed "connection refused") (calm_world []))
           (Args "me" "/backup" false false) {["alpha" := Dir]}).
  - vm_compute. eauto.
  - reflexivity.
  - reflexivity.
Defined.

(** X9.  How [main] ends.  The exit status is 0 in two cases only: the user
    name passes its check, the gate lets the directory pass, and either the
    lock is held by another process and the run is in cron mode, or the
    lock is acquired, the listing succeeds and the directory can be
    listed.  Nothing that happens while entries are removed or
    repositories are mirrored has a say. *)
Theorem X9_exit_status_zero_iff w a d :
  exit_code (main w a d).1.1 = 0%Z ↔
  is_Some (Re.search user_re (user a)) ∧
  res (_check_backup_dir w (backup_dir a) d) = Ok tt ∧
  ((∃ msg, pidfile w = PidFileLockedError msg ∧ cron a = true) ∨
   (pidfile w = PidAcquired ∧
    (∃ l, res (targets w (user a) d) = Ok l) ∧
    ∃ dev ino, backup_dir_status w = DirOk dev ino)).
Proof.
  rewrite main_status.
  destruct (Re.search user_re (user a)) as [n|]; [|split; [done|by intros [[? ?] _]]].
  rewrite run_res, (gate_out w _ d). cbn [res].
  destruct (res (_check_backup_dir w (backup_dir a) ∅)) as [[]|e].
  2:{ split; [by destruct e|]. by intros (_ & ? & _). }
  destruct (pidfile w) as [|msg|msg].
  - rewrite _backup_res.
    destruct (targets_frame w w (user a) d (<[_LOCK_FILE_NAME:=File]> d)) as [Hres _]; [done|].
    rewrite <- Hres.
    destruct (res (targets w (user a) d)) as [l|e].
    + rewrite reconcile_res. destruct (backup_dir_status w) as [dev ino| | |dev ino].
      * split; [|done]. intros _. split; [by eexists|]. split; [done|]. right. eauto 10.
      * split; [done|]. intros (_ & _ & [(? & ? & _)|(_ & _ & ? & ? & ?)]); done.
      * split; [done|]. intros (_ & _ & [(? & ? & _)|(_ & _ & ? & ? & ?)]); done.
      * split; [done|]. intros (_ & _ & [(? & ? & _)|(_ & _ & ? & ? & ?)]); done.
    + split; [by destruct e|]. intros (_ & _ & [(? & ? & _)|(_ & (? & ?) & _)]); done.
  - destruct (cron a).
    + split; [|done]. intros _. split; [by eexists|]. split; [done|]. left. eauto.
    + split; [done|]. intros (_ & _ & [(? & _ & ?)|(? & _)]); done.
  - split; [done|]. intros (_ & _ & [(? & ? & _)|(? & _)]); done.
Qed.

(** ** Removing entries *)


Lemma _backup_removed_set w u bd d l dev ino :
  backup_dir_status w = DirOk dev ino →
  res (targets w u d) = Ok l →
  removed_set (evs (_backup w u bd d)) = dom d ∖ list_to_set l ∖ {[_LOCK_FILE_NAME]}.
Proof.
  intros Hst Ht. rewrite _backup_eq, Ht, prepend_eq. cbn [evs].
  destruct (targets_out w u d) as (_ & Hcalls & _).
  destruct (listing_calls_touch_nothing _ "" Hcalls) as (_ & _ & _ & _ & _ & Hrem).
  rewrite (reconcile_eq _ _ _ _ _ _ _ Hst). cbn [evs].
  destruct (_cleanup_spec w bd l d dev ino Hst) as (_ & (t & Hevs & Hrem' & _) & _).
  destruct (mirror_all_calls w u bd l (dir (_cleanup w bd l d))) as (_ & Hm & _).
  unfold removed_set.
  rewrite !removals_app, Hrem, (removals_mirror_calls _ _ _ Hm), app_nil_r, Hevs, removals_cons.
  cbn [app]. rewrite Hrem'. apply list_to_set_elements_L.
Qed.

(** X11.  Hidden entries do not survive a run.  No name that starts with a
    dot passes the check of [_backup], so on a directory that can be
    listed every entry whose name starts with a dot, the lock file apart,
    is among the entries the run sets out to remove, whatever the server
    listed.  The temporary path [.name] that a clone or a rename that
    failed has left behind is such an entry: the next run removes it
    before it mirrors anything. *)
Theorem X11_hidden_entries_are_removed w u bd d l k dev ino :
  backup_dir_status w = DirOk dev ino →
  res (targets w u d) = Ok l →
  is_Some (d !! k) → starts_with_dot k = true → k ≠ _LOCK_FILE_NAME →
  k ∈ removed_set (evs (_backup w u bd d)).
Proof.
  intros Hst Ht Hk Hdot Hlock.
  rewrite (_backup_removed_set w u bd d l dev ino Hst Ht).
  rewrite !elem_of_difference, elem_of_dom, elem_of_list_to_set, elem_of_singleton.
  split; [split; [done|]|done].
  intros Hin. pose proof (targets_accepted w u d l Ht) as Hacc.
  rewrite Forall_forall in Hacc. specialize (Hacc k Hin).
  by rewrite (dot_name_rejected k Hdot) in Hacc.
Qed.

Lemma X11_hidden_entries_are_removed_witness :
  let w := calm_world [["alpha"]] in
  let d : gmap string node := <[".alpha" := Dir]> (<[".lock" := File]> ∅) in
  ".alpha" ∈ removed_set (evs (_backup w "me" "/backup" d)).
Proof.
  cbv zeta.
  apply (X11_hidden_entries_are_removed (calm_world [["alpha"]]) "me" "/backup"
           (<[".alpha" := Dir]> (<[".lock" := File]> ∅)) ["alpha"] ".alpha" 1%N 42%N).
  - reflexivity.
  - vm_compute. reflexivity.
  - vm_compute. eauto.
  - reflexivity.
  - discriminate.
Defined.

Lemma cleanup_blocks w bd cands : ∀ d,
  NoDup cands → (∀ k, k ∈ cands → is_Some (d !! k)) →
  ∃ blocks,
    evs (for_ cands (remove_entry w bd) d) = concat blocks ∧
    Forall2 (λ k b, ∃ ok n, b = removal_log bd k :: Remove k ok :: replicate n rm_failure_log ∧
                            (ok = true → n = 0))
            cands blocks.
Proof.
  induction cands as [|x cands IH]; intros d Hnd Hin.
  - exists []. split; [done|constructor].
  - apply NoDup_cons in Hnd as [Hx Hnd].
    cbn [for_]. rewrite bind_eq, remove_entry_eq. cbn [res dir evs].
    rewrite _rm_path_ok, prepend_eq. cbn [evs].
    assert (is_Some (d !! x)) as [n Hn] by (apply Hin; by left).
    destruct (IH (dir (_rm_path w x d)) Hnd) as (blocks & Hb & Hf).
    { intros k Hk. assert (k ≠ x) as Hne by by intros ->.
      assert (dir (_rm_path w x d) !! k = d !! k) as ->; [|apply Hin; by right].
      rewrite _rm_path_cases, Hn.
      destruct n; [destruct (rmtree_errors w x)|destruct (unlink_err w x)..];
        cbn [dir]; by rewrite ?lookup_delete_ne. }
    exists ((removal_log bd x :: evs (_rm_path w x d)) :: blocks).
    split; [by rewrite Hb|].
    constructor; [|done].
    rewrite _rm_path_cases, Hn.
    destruct n; [destruct (rmtree_errors w x) as [|m]|destruct (unlink_err w x)..]; cbn [evs].
    + by exists true, 0.
    + by exists false, (S m).
    + by exists false, 1.
    + by exists true, 0.
    + by exists false, 1.
    + by exists true, 0.
Qed.

(** X12.  The trace of [_cleanup] on a directory that can be listed is the
    listing followed by one block for each deletion candidate: the line
    that announces the removal, at DEBUG level with the path for a hidden
    entry and at WARNING level with the name for any other, then the
    removal itself, then the ERROR lines of the removal when it failed and
    none when it succeeded.  So in cron mode, where the level is WARNING,
    every visible entry that is removed is reported and the hidden ones
    are not. *)
Theorem X12_cleanup_announces_each_removal w bd repositories d dev ino :
  backup_dir_status w = DirOk dev ino →
  ∃ blocks,
    evs (_cleanup w bd repositories d) = Listdir :: concat blocks ∧
    Forall2 (λ k b, ∃ ok n,
               b = (if starts_with_dot k
                    then Log DEBUG "Removing '%s'." [bd +:+ "/" +:+ k]
                    else Log WARNING "Remove deleted repository '%s'." [k])
                   :: Remove k ok :: replicate n (Log ERROR "Failed to remove '%s': %s." []) ∧
               (ok = true → n = 0))
            (elements (dom d ∖ list_to_set repositories ∖ {[_LOCK_FILE_NAME]})) blocks.
Proof.
  intros Hst. rewrite (_cleanup_listed _ _ _ _ _ _ Hst). cbv zeta. cbn [evs].
  destruct (cleanup_blocks w bd
              (elements (dom d ∖ list_to_set repositories ∖ {[_LOCK_FILE_NAME]})) d)
    as (blocks & -> & Hf).
  { apply NoDup_elements. }
  { intros k Hk. apply elem_of_elements in Hk. apply elem_of_dom. set_solver. }
  by exists blocks.
Qed.

Lemma X12_cleanup_announces_each_removal_witness :
  let w := with_rmtree_errors (λ _, 2) (calm_world []) in
  let d : gmap string node := <["old" := Dir]> (<["alpha" := Dir]> ∅) in
  evs (_cleanup w "/backup" ["alpha"] d) =
    [Listdir; Log WARNING "Remove deleted repository '%s'." ["old"]; Remove "old" false;
     Log ERROR "Failed to remove '%s': %s." []; Log ERROR "Failed to remove '%s': %s." []] ∧
  ∃ blocks,
    evs (_cleanup w "/backup" ["alpha"] d) = Listdir :: concat blocks ∧
    Forall2 (λ k b, ∃ ok n,
               b = (if starts_with_dot k
                    then Log DEBUG "Removing '%s'." ["/backup" +:+ "/" +:+ k]
                    else Log WARNING "Remove deleted repository '%s'." [k])
                   :: Remove k ok :: replicate n (Log ERROR "Failed to remove '%s': %s." []) ∧
               (ok = true → n = 0))
            (elements (dom d ∖ list_to_set ["alpha"] ∖ {[_LOCK_FILE_NAME]})) blocks.
Proof.
  cbv zeta. split; [vm_compute; reflexivity|].
  apply (X12_cleanup_announces_each_removal
           (with_rmtree_errors (λ _, 2) (calm_world [])) "/backup" ["alpha"]
           (<["old" := Dir]> (<["alpha" := Dir]> ∅)) 1%N 42%N).
  reflexivity.
Defined.

(** ** Whole runs *)

Lemma lister_empty w u d :
  serves w 1 [] →
  _get_user_repositories w u d = Out (Ok []) d [HttpGet (api_url u) 1].
Proof.
  intros Hs. unfold _get_user_repositories. cbv zeta. rewrite bind_eq.
  change (seq 1 max_pages) with (1 :: seq 2 99).
  rewrite (pages_loop_break w _ 1 _ _ _ d Hs). cbn [res dir evs prepend ret app].
  by rewrite elements_empty.
Qed.

(** X13.  An account without repositories empties the directory.  When the
    server answers the first page with an empty list, [_backup] makes that
    one request, calls [git] for nothing, and sets out to remove every
    entry of the directory but the lock file; when no removal fails, no
    entry but the lock file is left. *)
Theorem X13_empty_account_empties_the_directory w u bd d dev ino :
  serves w 1 [] →
  backup_dir_status w = DirOk dev ino →
  let o := _backup w u bd d in
  res o = Ok tt ∧
  removed_set (evs o) = dom d ∖ {[_LOCK_FILE_NAME]} ∧
  pages_requested (evs o) = [1] ∧
  existsb is_git (evs o) = false ∧
  (forallb (λ c, negb (failed c)) (evs o) = true →
   ∀ k, k ≠ _LOCK_FILE_NAME → dir o !! k = None).
Proof.
  intros Hs Hst. cbv zeta.
  assert (targets w u d =
          Out (Ok []) d [HttpGet (api_url u) 1;
                         Log INFO "User %s doesn't have any repositories." [u]]) as Ht.
  { unfold targets. rewrite bind_eq, (lister_empty w u d Hs). done. }
  rewrite _backup_eq, Ht. cbn [res evs]. rewrite prepend_eq.
  rewrite (reconcile_eq _ _ _ _ _ _ _ Hst). cbn [res dir evs mirror_all for_ ret].
  rewrite app_nil_r.
  destruct (_cleanup_spec w bd [] d dev ino Hst)
    as (Hres & (t & Hevs & Hrem & Hlr) & Hout & _ & Hgone & _).
  cbv zeta in Hgone. rewrite Hevs in *.
  assert (dom d ∖ list_to_set [] ∖ {[_LOCK_FILE_NAME]} = dom d ∖ {[_LOCK_FILE_NAME]}) as Hset
    by set_solver.
  rewrite Hset in *.
  split; [done|]. split; [|split; [|split]].
  - unfold removed_set. rewrite removals_app, !removals_cons. cbn [app].
    change (removals []) with (@nil string). cbn [app].
    rewrite Hrem. apply list_to_set_elements_L.
  - cbn [app pages_requested mbind list_bind].
    assert (pages_requested t = []) as Hp.
    { clear -Hlr. induction t as [|c t IH]; [done|].
      cbn in Hlr. apply andb_prop in Hlr as [Hc Hl]. unfold pages_requested in *.
      cbn. rewrite IH by done. by destruct c. }
    unfold pages_requested in *. cbn. by rewrite Hp.
  - cbn [app existsb is_git orb].
    apply existsb_false_Forall. apply forallb_Forall in Hlr.
    eapply Forall_impl; [exact Hlr|]. by intros [].
  - cbn [app forallb failed negb andb]. intros Hok k Hk.
    destruct (d !! k) as [n|] eqn:Hdk.
    + apply Hgone; [done|]. rewrite elem_of_difference, elem_of_dom, elem_of_singleton.
      split; [by eexists|done].
    + rewrite Hout; [done|]. rewrite elem_of_difference, elem_of_dom, Hdk.
      by intros [[? ?] _].
Qed.

Lemma X13_empty_account_empties_the_directory_witness :
  let w := calm_world [] in
  let d : gmap string node := <["alpha" := Dir]> (<["notes.txt" := File]> (<[".lock" := File]> ∅)) in
  let o := _backup w "me" "/backup" d in
  res o = Ok tt ∧
  removed_set (evs o) = dom d ∖ {[_LOCK_FILE_NAME]} ∧
  pages_requested (evs o) = [1] ∧
  existsb is_git (evs o) = false ∧
  (forallb (λ c, negb (failed c)) (evs o) = true →
   ∀ k, k ≠ _LOCK_FILE_NAME → dir o !! k = None).
Proof.
  apply (X13_empty_account_empties_the_directory (calm_world []) "me" "/backup"
           (<["alpha" := Dir]> (<["notes.txt" := File]> (<[".lock" := File]> ∅))) 1%N 42%N).
  - eexists _, _. repeat split; try reflexivity. discriminate.
  - reflexivity.
Defined.

Lemma successful_run_state w u bd d l dev ino :
  backup_dir_status w = DirOk dev ino →
  res (targets w u d) = Ok l →
  Forall (λ n, is_entry_name n = true) l →
  forallb (λ c, negb (failed c)) (evs (_backup w u bd d)) = true →
  let d' := dir (_backup w u bd d) in
  (∀ n, n ∈ l → path_exists d' n = true) ∧
  dom d' ∖ list_to_set l ∖ {[_LOCK_FILE_NAME]} = (∅ : gset string).
Proof.
  intros Hst Ht1 Hentries. rewrite _backup_eq, Ht1.
  assert (Forall (λ n, target_name n = true) l) as Hacc.
  { pose proof (targets_accepted w u d l Ht1) as Ha.
    rewrite Forall_forall in *. intros n Hn. unfold target_name.
    by rewrite (Ha n Hn), (Hentries n Hn). }
  rewrite prepend_eq. cbn [res dir evs].
  rewrite (reconcile_eq _ _ _ _ _ _ _ Hst). cbn [dir evs].
  rewrite !forallb_app, !andb_true_iff. intros (_ & Hnf1 & Hnf2).
  destruct (_cleanup_spec w bd l d dev ino Hst) as (_ & _ & Hout1 & _ & Hgone1 & _).
  specialize (Hgone1 Hnf1).
  set (d1 := dir (_cleanup w bd l d)) in *.
  destruct (mirror_all_success w u bd l d1 Hacc Hnf2) as [Hall Hrest].
  cbv zeta. split; [done|].
  set (d2 := dir (mirror_all w u bd l d1)) in *.
  apply set_eq. intros k. split; [|set_solver].
  rewrite !elem_of_difference, elem_of_dom, elem_of_list_to_set, elem_of_singleton.
  intros [[[x Hx] Hkl] Hlock]. exfalso.
  destruct (Hrest k Hkl) as [Hk|Hk]; [congruence|].
  rewrite Hk in Hx.
  destruct (decide (k ∈ dom d ∖ list_to_set l ∖ {[_LOCK_FILE_NAME]})) as [Hin|Hnin].
  - rewrite Hgone1 in Hx; done.
  - rewrite Hout1 in Hx by done. apply Hnin.
    rewrite !elem_of_difference, elem_of_dom, elem_of_list_to_set, elem_of_singleton.
    eauto.
Qed.

Lemma path_exists_dom d n : path_exists d n = true → n ∈ dom d.
Proof.
  unfold path_exists. rewrite elem_of_dom. destruct (d !! n); [by eexists|done].
Qed.

(** X14.  What a run without a failure leaves.  When the directory can be
    listed, the names of the working set are entry names, and no removal
    and no [git] or rename call of [_backup] failed, the entries of the
    directory afterwards, the lock file apart, are exactly the
    repositories of the working set, and each of them exists for
    [os.path.exists]: nothing stale, nothing hidden, nothing missing. *)
Theorem X14_successful_run_mirrors_the_account w u bd d l dev ino :
  backup_dir_status w = DirOk dev ino →
  res (targets w u d) = Ok l →
  Forall (λ n, is_entry_name n = true) l →
  forallb (λ c, negb (failed c)) (evs (_backup w u bd d)) = true →
  let d' := dir (_backup w u bd d) in
  dom d' ∖ {[_LOCK_FILE_NAME]} = list_to_set l ∧
  ∀ n, n ∈ l → path_exists d' n = true.
Proof.
  intros Hst Ht He Hok.
  destruct (successful_run_state w u bd d l dev ino Hst Ht He Hok) as [Hall Hempty].
  cbv zeta in *. split; [|done].
  pose proof (targets_accepted w u d l Ht) as Hacc. rewrite Forall_forall in Hacc.
  apply set_eq. intros k.
  rewrite elem_of_difference, elem_of_singleton, elem_of_list_to_set. split.
  - intros [Hk Hlock]. destruct (decide (k ∈ l)) as [|Hkl]; [done|]. exfalso.
    assert (k ∈ dom (dir (_backup w u bd d)) ∖ list_to_set l ∖ {[_LOCK_FILE_NAME]}) as Hin.
    { rewrite !elem_of_difference, elem_of_list_to_set, elem_of_singleton. done. }
    rewrite Hempty in Hin. by apply elem_of_empty in Hin.
  - intros Hk. split; [by apply path_exists_dom, Hall|].
    intros ->. specialize (Hacc _ Hk). by rewrite dot_name_rejected in Hacc.
Qed.

Lemma X14_successful_run_mirrors_the_account_witness :
  let w := calm_world [["alpha"; "Beta"]] in
  let d : gmap string node :=
    <["old" := Dir]> (<[".Beta" := Dir]> (<["alpha" := Dir]> (<[".lock" := File]> ∅))) in
  let d' := dir (_backup w "me" "/backup" d) in
  dom d' ∖ {[_LOCK_FILE_NAME]} = list_to_set ["alpha"; "Beta"] ∧
  ∀ n, n ∈ ["alpha"; "Beta"] → path_exists d' n = true.
Proof.
  apply (X14_successful_run_mirrors_the_account (calm_world [["alpha"; "Beta"]]) "me" "/backup"
           (<["old" := Dir]> (<[".Beta" := Dir]> (<["alpha" := Dir]> (<[".lock" := File]> ∅))))
           ["alpha"; "Beta"] 1%N 42%N).
  - reflexivity.
  - vm_compute. reflexivity.
  - repeat constructor.
  - vm_compute. reflexivity.
Defined.

(** X15.  A directory that cannot be listed stops the run before anything
    is touched.  When [os.listdir] fails, for a directory that is missing
    or one that may not be read, [_backup] ends with the error of
    [_cleanup]; the directory is as it was, and after the calls of the
    listing the attempt to list the directory is the only call: nothing is
    removed and no repository is mirrored. *)
Theorem X15_unlistable_directory_stops_the_run w u bd d l :
  (∀ dev ino, backup_dir_status w ≠ DirOk dev ino) →
  res (targets w u d) = Ok l →
  ∃ msg, _backup w u bd d =
         Out (Raise (unlistable_error bd msg)) d (evs (targets w u d) ++ [Listdir]).
Proof.
  intros Hst Ht. rewrite _backup_eq, Ht.
  destruct (reconcile_unlisted w u bd l d Hst) as [msg ->]. by exists msg.
Qed.

Lemma X15_unlistable_directory_stops_the_run_witness :
  let w := with_status (DirNoRead 1 42) (calm_world [["alpha"]]) in
  let d : gmap string node := {["old" := Dir]} in
  ∃ msg, _backup w "me" "/backup" d =
         Out (Raise (unlistable_error "/backup" msg)) d (evs (targets w "me" d) ++ [Listdir]).
Proof.
  apply (X15_unlistable_directory_stops_the_run
           (with_status (DirNoRead 1 42) (calm_world [["alpha"]])) "me" "/backup"
           {["old" := Dir]} ["alpha"]).
  - intros dev ino. discriminate.
  - vm_compute. reflexivity.
Defined.

(** ** The listing *)

Lemma pages_loop_stops w url names k e : ∀ n a last d,
  a ≤ k → k < a + n →
  (∀ p, 1 ≤ p ≤ k → serves w p (names p) ∧ names p ≠ []) →
  (∀ rest last' repos d',
      pages_loop w url (S k :: rest) last' repos d' = Out (Raise e) d' [HttpGet url (S k)]) →
  pages_loop w url (seq (S a) n) last (collected names a) d =
  Out (Raise e) d (HttpGet url <$> seq (S a) (S k - a)).
Proof.
  induction n as [|n IH]; intros a last d Ha Hk Hpages Hbad; [lia|].
  cbn [seq]. destruct (decide (a = k)) as [->|Hne].
  - rewrite Hbad. replace (S k - k) with 1 by lia. done.
  - destruct (Hpages (S a)) as [Hs Hnonempty]; [lia|].
    rewrite (pages_loop_next _ _ _ _ _ _ _ _ Hs Hnonempty). cbv zeta.
    rewrite <- collected_S. rewrite IH; try done; try lia.
    cbn [res dir evs]. replace (S k - a) with (S (S k - S a)) by lia. done.
Qed.

Lemma lister_stops w user names k e d :
  k < max_pages →
  (∀ p, 1 ≤ p ≤ k → serves w p (names p) ∧ names p ≠ []) →
  (∀ rest last' repos d',
      pages_loop w (api_url user) (S k :: rest) last' repos d' =
      Out (Raise e) d' [HttpGet (api_url user) (S k)]) →
  _get_user_repositories w user d =
  Out (Raise e) d (HttpGet (api_url user) <$> seq 1 (S k)).
Proof.
  intros Hk Hpages Hbad. unfold _get_user_repositories. cbv zeta. rewrite bind_eq.
  change (∅ : gset string) with (collected names 0).
  by rewrite (pages_loop_stops w (api_url user) names k e max_pages 0 0 d); try done; try lia.
Qed.

(** X16.  The lister stops at the first page it cannot take.  After [k]
    pages of names, when the request for page [k + 1] fails, or is
    answered with a status other than 200, or with a body the lister does
    not take, [_get_user_repositories] raises the one error of the
    listing, whose text has the URL and then the cause: the text of the
    transport error, the reason phrase of the response, or [Server
    returned an invalid response.]  It has made the requests for the pages
    1 to [k + 1], in order, and no other call; the names of the pages read
    so far are dropped. *)
Theorem X16_listing_stops_at_the_first_bad_page w user d names k cause :
  k < max_pages →
  (∀ p, 1 ≤ p ≤ k → serves w p (names p) ∧ names p ≠ []) →
  (server w (S k) = Failed cause ∨
   ∃ r, server w (S k) = Responded r ∧
        (status_code r ≠ 200%Z ∧ cause = reason r ∨
         status_code r = 200%Z ∧ cause = "Server returned an invalid response." ∧
         (content_type r = Some "application/json" ∨
          ¬ ∃ items, json_body r = Some (JList items)))) →
  _get_user_repositories w user d =
  Out (Raise (listing_error (api_url user) cause)) d (HttpGet (api_url user) <$> seq 1 (S k)).
Proof.
  intros Hk Hpages Hbad. apply (lister_stops w user names k); [done..|].
  intros rest last' repos d'. cbn [pages_loop]. rewrite bind_eq, get_page_cases. cbv zeta.
  destruct Hbad as [->|(r & -> & Hr)]; [done|].
  destruct Hr as [[Hs ->]|(Hs & -> & Hr)].
  - by rewrite decide_True.
  - rewrite decide_False by (intros ?; congruence).
    destruct (decide (content_type r = Some "application/json")); [done|].
    destruct Hr as [?|Hr]; [done|].
    destruct (json_body r) as [[]|]; try done. destruct Hr. by eexists.
Qed.

Lemma X16_listing_stops_at_the_first_bad_page_witness :
  let w := with_server (λ page, if decide (page = 1) then page_of ["alpha"]
                                else Responded (Response 502 "Bad Gateway" None None))
                       (calm_world []) in
  _get_user_repositories w "me" ∅ =
  Out (Raise (Error ("Failed to get a list of user repositories from "
                     +:+ "https://api.github.com/users/me/repos: Bad Gateway")))
      ∅ [HttpGet (api_url "me") 1; HttpGet (api_url "me") 2].
Proof.
  cbv zeta.
  rewrite (X16_listing_stops_at_the_first_bad_page _ "me" ∅
             (λ page, if decide (page = 1) then ["alpha"] else []) 1 "Bad Gateway").
  - reflexivity.
  - unfold max_pages. lia.
  - intros p Hp. assert (p = 1) as -> by lia. split; [|discriminate].
    eexists _, _. repeat split; try reflexivity. discriminate.
  - right. eexists. split; [reflexivity|]. left. split; [discriminate|reflexivity].
Defined.

Lemma names_of_app_bad good bad rest gn e :
  names_of good = Ok gn → getitem_name bad = Raise e →
  names_of (good ++ bad :: rest) = Raise e.
Proof.
  revert gn. induction good as [|j good IH]; intros gn Hg Hb; cbn.
  - by rewrite Hb.
  - cbn in Hg. destruct (getitem_name j); [|done].
    destruct (names_of good) as [l|]; [|done]. by rewrite (IH l).
Qed.

(** X17.  An item without a name is not an invalid response.  When a page
    that passes the checks of the lister (status 200, a body that is a
    list) holds, after items with names, an item that is no object or an
    object without the key [name], reading [repo_info["name"]] raises
    [TypeError] or [KeyError]; neither is caught where the errors of the
    listing are, so [_get_user_repositories] ends with it after the
    request for that page, and [main], which catches [Error] alone, ends
    with the traceback of that exception instead of an error message. *)
Theorem X17_item_without_name_is_not_caught w u d names k r good bad rest gn e :
  k < max_pages →
  (∀ p, 1 ≤ p ≤ k → serves w p (names p) ∧ names p ≠ []) →
  server w (S k) = Responded r →
  status_code r = 200%Z →
  content_type r ≠ Some "application/json" →
  json_body r = Some (JList (good ++ bad :: rest)) →
  names_of good = Ok gn →
  match bad with
  | JObj fields => assoc "name" fields = None ∧ e = KeyError
  | _ => e = TypeError
  end →
  (∀ d', _get_user_repositories w u d' =
         Out (Raise e) d' (HttpGet (api_url u) <$> seq 1 (S k))) ∧
  (∀ a, user a = u →
        is_Some (Re.search user_re u) →
        res (_check_backup_dir w (backup_dir a) d) = Ok tt →
        pidfile w = PidAcquired →
        (main w a d).1.1 = ExitTraceback e).
Proof.
  intros Hk Hpages Hs Hst Hct Hbody Hgood Hbad.
  assert (getitem_name bad = Raise e ∧ (e = KeyError ∨ e = TypeError)) as [Hget He].
  { destruct bad as [| | | | |fields]; try (subst e; split; [done|by right]).
    destruct Hbad as [Hn ->]. cbn. rewrite Hn. split; [done|by left]. }
  assert (∀ d', _get_user_repositories w u d' =
                Out (Raise e) d' (HttpGet (api_url u) <$> seq 1 (S k))) as Hl.
  { intros d'. apply (lister_stops w u names k); [done..|].
    intros rest' last' repos d''. cbn [pages_loop]. rewrite bind_eq, get_page_cases. cbv zeta.
    rewrite Hs, decide_False by (intros ?; congruence).
    rewrite decide_False by done. rewrite Hbody. cbn [res dir evs].
    rewrite (names_of_app_bad good bad rest gn e Hgood Hget).
    destruct good; done. }
  split; [done|].
  intros a <- [n Hn] Hg Hp. rewrite main_status, Hn, run_res.
  rewrite gate_out in Hg. cbn [res] in Hg. rewrite Hg, Hp, _backup_res.
  pose proof (targets_spec w (user a) (<[_LOCK_FILE_NAME:=File]> d)) as Ht.
  rewrite Hl in Ht. cbn [res] in Ht. rewrite Ht. cbn [res exit_of].
  by destruct He as [-> | ->].
Qed.

Lemma X17_item_without_name_is_not_caught_witness :
  let body := JList [repo_json "alpha"; JObj [("id", JNum 7)]] in
  let w := with_server (λ _, Responded (Response 200 "OK" None (Some body))) (calm_world []) in
  _get_user_repositories w "me" ∅ = Out (Raise KeyError) ∅ [HttpGet (api_url "me") 1] ∧
  (main w (Args "me" "/backup" false false) ∅).1.1 = ExitTraceback KeyError.
Proof.
  cbv zeta.
  destruct (X17_item_without_name_is_not_caught
              (with_server
                 (λ _, Responded (Response 200 "OK" None
                                    (Some (JList [repo_json "alpha"; JObj [("id", JNum 7)]]))))
                 (calm_world []))
              "me" ∅ (λ _, []) 0
              (Response 200 "OK" None (Some (JList [repo_json "alpha"; JObj [("id", JNum 7)]])))
              [repo_json "alpha"] (JObj [("id", JNum 7)]) [] ["alpha"] KeyError)
    as [Hl Hm].
  - unfold max_pages. lia.
  - intros p Hp. lia.
  - reflexivity.
  - reflexivity.
  - discriminate.
  - reflexivity.
  - reflexivity.
  - split; reflexivity.
  - split; [apply Hl|]. apply Hm; [reflexivity| |reflexivity|reflexivity].
    vm_compute. eauto.
Defined.

Lemma pages_requested_app t1 t2 :
  pages_requested (t1 ++ t2) = pages_requested t1 ++ pages_requested t2.
Proof. unfold pages_requested. by rewrite bind_app. Qed.

Lemma pages_loop_requests w url pages : ∀ last repos d,
  ∃ m, m ≤ length pages ∧ (pages ≠ [] → 1 ≤ m) ∧
       pages_requested (evs (pages_loop w url pages last repos d)) = take m pages.
Proof.
  induction pages as [|page rest IH]; intros last repos d.
  - exists 0. by repeat split.
  - cbn [pages_loop]. rewrite bind_eq, get_page_cases. cbv zeta.
    assert (∀ X (r : result X),
              ∃ m, m ≤ length (page :: rest) ∧ (page :: rest ≠ [] → 1 ≤ m) ∧
                   pages_requested (evs (Out r d [HttpGet url page])) = take m (page :: rest))
      as Hone.
    { intros X r0. exists 1. cbn. repeat split; try lia. }
    destruct (server w page) as [msg|r]; [apply Hone|].
    destruct (decide (status_code r ≠ 200%Z)); [apply Hone|].
    destruct (decide (content_type r = Some "application/json")); [apply Hone|].
    destruct (json_body r) as [[| | | |items|]|]; try apply Hone.
    cbn [res dir evs].
    destruct items as [|j items]; [apply (Hone _ (Ok repos))|].
    cbn [prepend]. rewrite bind_eq. unfold lift at 1 2 3. cbn [res dir evs].
    destruct (names_of (j :: items)) as [l|e]; [|apply (Hone _ (@Raise (gset string) e))].
    rewrite !prepend_eq. cbn [evs app].
    destruct (IH page (repos ∪ list_to_set l) d) as (m & Hm & _ & Hreq).
    exists (S m). split; [cbn; lia|]. split; [lia|].
    change (HttpGet url page :: ?t) with ([HttpGet url page] ++ t).
    rewrite pages_requested_app, Hreq. done.
Qed.

(** X18.  Whatever the server answers, a call of [_get_user_repositories]
    makes at least one request and at most a hundred, for the pages 1, 2,
    ... in order with none left out or asked twice; it makes no call
    other than requests and log lines, and leaves the directory as it
    was. *)
Theorem X18_never_more_than_a_hundred_requests w user d :
  ∃ n, 1 ≤ n ≤ max_pages ∧
       pages_requested (evs (_get_user_repositories w user d)) = seq 1 n ∧
       dir (_get_user_repositories w user d) = d ∧
       forallb is_listing_call (evs (_get_user_repositories w user d)) = true.
Proof.
  destruct (listing_frame w w user d d) as [Hd Hcalls]; [done|].
  assert (dir (_get_user_repositories w user d) = d) as Hdir by by rewrite Hd.
  assert (evs (_get_user_repositories w user d) =
          evs (pages_loop w (api_url user) (seq 1 max_pages) 0 ∅ d)) as Hev.
  { unfold _get_user_repositories. cbv zeta. rewrite bind_eq.
    destruct (res (pages_loop w (api_url user) (seq 1 max_pages) 0 ∅ d)); [|done].
    rewrite prepend_eq. cbn [evs ret]. by rewrite app_nil_r. }
  destruct (pages_loop_requests w (api_url user) (seq 1 max_pages) 0 ∅ d) as (m & Hm & H1 & Hreq).
  rewrite length_seq in Hm.
  exists m. split; [split; [by apply H1|done]|].
  split; [|done]. rewrite Hev, Hreq, take_seq. f_equal. lia.
Qed.

(** ** What a run keeps *)

Lemma mirror_all_frame w user bd l d k :
  Forall (λ n, is_entry_name n = true) l →
  k ∉ l → (∀ n, n ∈ l → k ≠ "." +:+ n) →
  dir (mirror_all w user bd l d) !! k = d !! k.
Proof.
  intros Hentries Hk Htemp. unfold mirror_all.
  apply (for_invariant (λ name, _mirror_repo w name (repo_url user name) bd)
           (λ _ d' _, d' !! k = d !! k)).
  - intros x d'. apply _mirror_repo_ok.
  - done.
  - intros done x rest d' t Hl Hd'.
    assert (x ∈ l) as Hx by (rewrite Hl; set_solver).
    rewrite Forall_forall in Hentries.
    rewrite mirror_step_frame; [done|by apply Hentries|by intros ->|by apply Htemp].
Qed.




(** X22.  A run makes no entry but mirrors and their temporary paths.  When
    the names of the working set are entry names, a name that is neither
    in the working set nor the temporary path of a name of the working set
    has after [_backup] the entry it had before, or none: such an entry
    can go in the cleanup and cannot come or change.  The lock file, which
    is never a candidate, is as it was when no repository is called
    [lock]. *)
Theorem X22_run_makes_no_other_entry w u bd d l k :
  res (targets w u d) = Ok l →
  Forall (λ m, is_entry_name m = true) l →
  k ∉ l → (∀ n, n ∈ l → k ≠ "." +:+ n) →
  (dir (_backup w u bd d) !! k = d !! k ∨ dir (_backup w u bd d) !! k = None) ∧
  (k = _LOCK_FILE_NAME → dir (_backup w u bd d) !! k = d !! k).
Proof.
  intros Ht Hentries Hk Htemp.
  rewrite _backup_eq, Ht, prepend_eq. cbn [dir].
  destruct (status_cases w) as [(dev & ino & Hst)|Hst].
  - rewrite (reconcile_eq _ _ _ _ _ _ _ Hst). cbn [dir].
    rewrite (mirror_all_frame w u bd l _ k Hentries Hk Htemp).
    destruct (_cleanup_spec w bd l d dev ino Hst) as (_ & _ & Hout & Hmono & _).
    split; [destruct (Hmono k); auto|].
    intros ->. apply Hout. set_solver.
  - destruct (reconcile_unlisted w u bd l d Hst) as [msg ->]. cbn [dir]. auto.
Qed.

Lemma X22_run_makes_no_other_entry_witness :
  let w := calm_world [["alpha"]] in
  let d : gmap string node := <["old" := Dir]> (<[".lock" := File]> ∅) in
  (dir (_backup w "me" "/backup" d) !! ".lock" = d !! ".lock" ∨
   dir (_backup w "me" "/backup" d) !! ".lock" = None) ∧
  (".lock" = _LOCK_FILE_NAME → dir (_backup w "me" "/backup" d) !! ".lock" = d !! ".lock").
Proof.
  apply (X22_run_makes_no_other_entry (calm_world [["alpha"]]) "me" "/backup"
           (<["old" := Dir]> (<[".lock" := File]> ∅)) ["alpha"] ".lock").
  - vm_compute. reflexivity.
  - repeat constructor.
  - intros Hin. apply list_elem_of_singleton in Hin. discriminate.
  - intros n Hin. apply list_elem_of_singleton in Hin as ->. discriminate.
Defined.

(** ** The requirements of [setup.py] *)

Section Requirements.

Variable isspace : ascii → bool.

Lemma lstrip_no_lead s : no_lead isspace (lstrip isspace s).
Proof.
  induction s as [|c s IH]; cbn; [done|].
  destruct (isspace c) eqn:Hc; [done|]. by cbn.
Qed.

Lemma lstrip_fixed s : no_lead isspace s → lstrip isspace s = s.
Proof. destruct s as [|c s]; cbn; [done|]. by intros ->. Qed.

Lemma rstrip_no_lead s : no_lead isspace s → no_lead isspace (rstrip isspace s).
Proof.
  destruct s as [|c s]; cbn; [done|]. intros Hc.
  destruct (rstrip isspace s); [by rewrite Hc|done].
Qed.

Lemma rstrip_idem s : rstrip isspace (rstrip isspace s) = rstrip isspace s.
Proof.
  induction s as [|c s IH]; cbn; [done|].
  destruct (rstrip isspace s) as [|c' r] eqn:Hr.
  - destruct (isspace c) eqn:Hc; cbn; [done|]. by rewrite Hc.
  - cbn. cbn in IH. by rewrite IH.
Qed.

Lemma strip_idem s : strip isspace (strip isspace s) = strip isspace s.
Proof.
  unfold strip. rewrite (lstrip_fixed (rstrip isspace (lstrip isspace s))).
  - apply rstrip_idem.
  - apply rstrip_no_lead, lstrip_no_lead.
Qed.

Lemma get_requirements_from acc lines :
  foldl (λ requirements requirement,
           let requirement := strip isspace requirement in
           if negb (String.eqb requirement "") && negb (startswith "#" requirement)
           then requirements ++ [requirement]
           else requirements)
        acc lines =
  acc ++ filter (λ r, is_requirement r = true) (strip isspace <$> lines).
Proof.
  revert acc. induction lines as [|line lines IH]; intros acc; cbn [foldl fmap list_fmap].
  - by rewrite filter_nil, app_nil_r.
  - rewrite IH, filter_cons. cbv beta zeta.
    change (negb (String.eqb (strip isspace line) "") &&
            negb (startswith "#" (strip isspace line)))
      with (is_requirement (strip isspace line)).
    destruct (is_requirement (strip isspace line)) eqn:Hreq.
    + rewrite decide_True by done. by rewrite <- app_assoc.
    + by rewrite decide_False by done.
Qed.

Lemma get_requirements_eq lines :
  get_requirements isspace lines =
  filter (λ r, is_requirement r = true) (strip isspace <$> lines).
Proof. unfold get_requirements. by rewrite get_requirements_from. Qed.

Lemma lstrip_split s :
  ∃ pre, s = pre +:+ lstrip isspace s ∧ all_chars isspace pre = true.
Proof.
  induction s as [|c s (pre & Hs & Hpre)]; [by exists ""|].
  cbn [lstrip]. destruct (isspace c) eqn:Hc.
  - exists (String c pre). split.
    + change (String c s = String c (pre +:+ lstrip isspace s)). by rewrite <- Hs.
    + cbn. by rewrite Hc, Hpre.
  - by exists "".
Qed.

Lemma rstrip_split s :
  ∃ post, s = rstrip isspace s +:+ post ∧ all_chars isspace post = true.
Proof.
  induction s as [|c s (post & Hs & Hpost)]; [by exists ""|].
  cbn [rstrip]. destruct (rstrip isspace s) as [|c' r] eqn:Hr.
  - change ("" +:+ post) with post in Hs. subst post.
    destruct (isspace c) eqn:Hc.
    + exists (String c s). split; [done|]. cbn. by rewrite Hc, Hpost.
    + by exists s.
  - exists post. split; [|done].
    change (String c s = String c (String c' r +:+ post)). by rewrite <- Hs.
Qed.

Lemma rstrip_last s :
  rstrip isspace s = "" ∨ ∃ c, last_char (rstrip isspace s) = Some c ∧ isspace c = false.
Proof.
  induction s as [|c s IH]; [by left|].
  cbn [rstrip]. destruct (rstrip isspace s) as [|c' r] eqn:Hr.
  - destruct (isspace c) eqn:Hc; [by left|]. right. by exists c.
  - right. destruct IH as [?|(c0 & Hl & Hc0)]; [done|]. by exists c0.
Qed.

Lemma strip_split line :
  ∃ pre post, line = pre +:+ strip isspace line +:+ post ∧
              all_chars isspace pre = true ∧ all_chars isspace post = true.
Proof.
  destruct (lstrip_split line) as (pre & Hl & Hpre).
  destruct (rstrip_split (lstrip isspace line)) as (post & Hr & Hpost).
  exists pre, post. split; [|done]. unfold strip. by rewrite <- Hr.
Qed.

Lemma strip_ends line :
  strip isspace line = "" ∨
  ∃ c c', first_char (strip isspace line) = Some c ∧ last_char (strip isspace line) = Some c' ∧
          isspace c = false ∧ isspace c' = false.
Proof.
  unfold strip.
  pose proof (rstrip_no_lead _ (lstrip_no_lead line)) as Hlead.
  destruct (rstrip_last (lstrip isspace line)) as [?|(c' & Hlast & Hc')]; [by left|].
  right. destruct (rstrip isspace (lstrip isspace line)) as [|c r]; [done|].
  exists c, c'. cbn in Hlead. done.
Qed.

End Requirements.

Lemma startswith_hash c s : startswith "#" (String c s) = false → c ≠ "#"%char.
Proof.
  intros Hs ->. unfold startswith in Hs. cbn in Hs. by destruct s.
Qed.

(** X19.  [get_requirements] returns, in the order of the file, the lines
    stripped, less the ones that are then empty or begin with [#].  To
    strip a line is to take white space off its two ends and nothing
    else: the line is a run of white space, the stripped line, and a run
    of white space.  So every requirement returned has a first and a last
    character, neither is white space, and the first is not [#]; a comment
    after a requirement on the same line stays part of the requirement. *)
Theorem X19_requirements_are_the_stripped_lines isspace lines :
  get_requirements isspace lines =
    filter (λ r, is_requirement r = true) (strip isspace <$> lines) ∧
  (∀ line, ∃ pre post,
      line = pre +:+ strip isspace line +:+ post ∧
      all_chars isspace pre = true ∧ all_chars isspace post = true) ∧
  Forall (λ r, ∃ c c', first_char r = Some c ∧ last_char r = Some c' ∧
                       isspace c = false ∧ isspace c' = false ∧ c ≠ "#"%char)
         (get_requirements isspace lines).
Proof.
  split; [apply get_requirements_eq|]. split; [apply strip_split|].
  rewrite get_requirements_eq. apply Forall_forall. intros r Hr.
  apply list_elem_of_filter in Hr as [Hreq Hin].
  apply list_elem_of_fmap in Hin as (line & -> & _).
  unfold is_requirement in Hreq. apply andb_prop in Hreq as [Hne Hc].
  apply negb_true_iff in Hc.
  destruct (strip_ends isspace line) as [Hempty|(c & c' & Hfirst & Hlast & Hs & Hs')].
  - rewrite Hempty in Hne. done.
  - exists c, c'. repeat split; try done.
    destruct (strip isspace line) as [|c0 s]; [done|]. injection Hfirst as ->.
    by eapply startswith_hash.
Qed.

Lemma X19_requirements_are_the_stripped_lines_witness :
  get_requirements ascii_space
    ["# what the script needs" +:+ nl; nl; "  psys >= 0.3 " +:+ nl;
     "   # pinned" +:+ nl; "requests # for the API" +:+ nl; "pcli"] =
  ["psys >= 0.3"; "requests # for the API"; "pcli"].
Proof.
  destruct (X19_requirements_are_the_stripped_lines ascii_space
              ["# what the script needs" +:+ nl; nl; "  psys >= 0.3 " +:+ nl;
               "   # pinned" +:+ nl; "requests # for the API" +:+ nl; "pcli"]) as [-> _].
  vm_compute. reflexivity.
Defined.

(** X20.  [get_requirements] is idempotent, and blind to the lines it
    drops: fed its own result as lines it returns that result, and a line
    that is blank or a comment once stripped can be taken out of the file,
    or put in anywhere, without any change to what is returned. *)
Theorem X20_requirements_idempotent isspace :
  (∀ lines,
     get_requirements isspace (get_requirements isspace lines) =
     get_requirements isspace lines) ∧
  (∀ before line after,
     is_requirement (strip isspace line) = false →
     get_requirements isspace (before ++ line :: after) =
     get_requirements isspace (before ++ after)).
Proof.
  split.
  - intros lines. rewrite (get_requirements_eq isspace (get_requirements isspace lines)).
    rewrite get_requirements_eq.
    induction lines as [|line lines IH]; [done|].
    cbn [fmap list_fmap]. rewrite filter_cons.
    destruct (decide (is_requirement (strip isspace line) = true)) as [Hreq|Hreq]; [|done].
    cbn [fmap list_fmap]. rewrite filter_cons, strip_idem, decide_True by done.
    f_equal. apply IH.
  - intros before line after Hline. rewrite !get_requirements_eq, !fmap_app, !filter_app.
    cbn [fmap list_fmap]. rewrite filter_cons, decide_False; [done|]. by rewrite Hline.
Qed.

Lemma X20_requirements_idempotent_witness :
  get_requirements ascii_space (["psys" +:+ nl] ++ ("  # note" +:+ nl) :: ["pcli" +:+ nl]) =
  get_requirements ascii_space (["psys" +:+ nl] ++ ["pcli" +:+ nl]).
Proof.
  destruct (X20_requirements_idempotent ascii_space) as [_ H].
  apply H. vm_compute. reflexivity.
Defined.
